(** * tbot: the low-level Telegram client and its update engine

    A shallow embedding of [client.go] (package [tbot]): the request
    builders, the functional options over [url.Values], the webhook calls
    and [DownloadFile]; followed by the update acquisition and dispatch
    engine (Poller, Webhook Receiver, Dispatcher, Handler Registry). *)

From stdpp Require Import base gmap strings list fin_maps.
From Stdlib Require Import ZArith Lia Ascii String DecimalString DecimalZ Sorted Permutation.

Open Scope Z_scope.

(** ** [net/url]: [type Values map[string][]string] *)

Module Values.

Abbreviation t := (gmap string (list string)).

(** [func (v Values) Set(key, value string) { v[key] = []string{value} }] *)
Definition set (key value : string) (v : t) : t := <[key := [value]]> v.

(** [func (v Values) Get(key string) string]: the first value of the key,
    the empty string when there is none. *)
Definition get (key : string) (v : t) : string :=
  match v !! key with
  | Some (x :: _) => x
  | _ => ""
  end.

(** [func (v Values) Del(key string) { delete(v, key) }] *)
Definition del (key : string) (v : t) : t := delete key v.

End Values.

(** ** [fmt]: the [%s] fragment of [Sprintf], the only verb in the client's
    URL formats; [Errorf] is kept as its format and operands. *)

Fixpoint Sprintf (format : string) (args : list string) : string :=
  match format with
  | String "%"%char (String "s"%char rest) =>
      match args with
      | a :: args' => a +:+ Sprintf rest args'
      | [] => "%!s(MISSING)" +:+ Sprintf rest []
      end
  | String ch rest => String ch (Sprintf rest args)
  | EmptyString => ""
  end.

(** [strconv.Itoa] (and [fmt.Sprint] of an integer): the decimal digits,
    with a leading minus sign below zero; [strconv.Atoi] reads them back. *)
Definition Itoa (z : Z) : string := NilZero.string_of_int (Z.to_int z).

Definition Atoi (s : string) : option Z :=
  option_map Z.of_int (NilZero.int_of_string s).

Inductive operand : Type :=
| OpS (s : string)
| OpD (d : Z)
| OpV (e : error)
with error : Type :=
| Errorf (format : string) (args : list operand)
| RemoteError (code : Z) (description : string).

(** ** The data model the engine works on *)

(** Modelled from the spec: the [Update] record and its payload variants;
    the struct's declaration is not part of [client.go]. *)
Inductive Payload : Type :=
| Message (text : string)
| EditedMessage (text : string)
| CallbackQuery (data : string)
| InlineQuery
| ChosenInlineResult
| ShippingQuery
| PreCheckoutQuery
| Poll
| PollAnswer.

Record Update : Type := { UpdateID : Z; payload : Payload }.

(** ** [client.go] *)

(** [type inputFile struct { field string; name string }] *)
Record inputFile : Type := { field : string; name : string }.

(** [type files struct { files []inputFile }] with its [Add] method. *)
Record files : Type := { files_ : list inputFile }.

Definition files_Add (f : list inputFile) (m : files) : files :=
  {| files_ := files_ m ++ f |}.

(** [type Client struct]. The [httpClient] and the [logger] are the
    environment of the section below. [updatesParams] is a map that
    [NewClient] leaves nil. *)
Record Client : Type := {
  token : string;
  url : string;
  baseURL : string;
  filesTrailURL : string;
  nextOffset : Z;
  bufferSize : Z;
  timeout : Z;
  updatesParams : option Values.t
}.

(** [func NewClient(token string, httpClient *http.Client, baseURL string) *Client]:
    the fields it does not name hold Go's zero values. *)
Definition NewClient (token0 baseURL0 : string) : Client :=
  {| token := token0;
     url := Sprintf "%s/bot%s/" [baseURL0; token0] +:+ "%s";
     baseURL := baseURL0;
     filesTrailURL := "%s/file/bot%s/%s";
     nextOffset := 0;
     bufferSize := 0;
     timeout := 0;
     updatesParams := None |}.

Definition set_nextOffset (z : Z) (c : Client) : Client :=
  {| token := token c; url := url c; baseURL := baseURL c;
     filesTrailURL := filesTrailURL c; nextOffset := z;
     bufferSize := bufferSize c; timeout := timeout c;
     updatesParams := updatesParams c |}.

(** One remote call as it leaves the client: the method name, the
    parameter map ([None] for a nil map) and, for [doRequestWithFiles],
    the attachments. *)
Inductive Invocation : Type :=
| Invoke (methodName : string) (params : option Values.t)
| InvokeWithFiles (methodName : string) (params : option Values.t)
                  (fileStreams : files).

(** What a call brings back once decoded into the caller's [out]. *)
Inductive Result : Type :=
| RBool (b : bool)
| RUpdates (us : list Update)
| RJson (raw : string).

Record Reply : Type := { result : Result; err : option error }.

(** [net/http] as far as [DownloadFile] goes. *)
Record Request : Type := { Method : string; URL : string }.
Record Response : Type := { StatusCode : Z; Body : string + error }.

Definition MethodGet : string := "GET".
Definition StatusOK : Z := 200.

(** The state a method of [*Client] runs in: the client it points to, the
    remote calls issued so far and the HTTP requests performed so far
    (most recent last). *)
Record World : Type := {
  client : Client;
  issued : list Invocation;
  performed : list Request
}.

Definition M (A : Type) : Type := World -> A * World.

Definition ret {A} (a : A) : M A := fun w => (a, w).
Definition bind {A B} (m : M A) (k : A -> M B) : M B :=
  fun w => let '(a, w') := m w in k a w'.

Notation "x <- m ;; k" := (bind m (fun x => k))
  (at level 100, m at next level, right associativity).

Definition self : M Client := fun w => (client w, w).

Definition SendOption : Type := Values.t -> Values.t.

(** [for _, opt := range opts { opt(req) }] *)
Definition apply_opts (opts : list SendOption) (req : Values.t) : Values.t :=
  fold_left (fun r opt => opt r) opts req.

(** [type File struct] *)
Record File : Type := { FileID : string; FileSize : Z; FilePath : string }.

Section Client.

(** The remote service: its reply to a call, given the calls before it. *)
Variable remote : list Invocation -> Invocation -> Reply.
(** [c.httpClient.Do]: the response or the error, given the requests
    before it. *)
Variable Do : list Request -> Request -> Response + error.
(** [http.NewRequest(method, url, nil)]. *)
Variable NewRequest : string -> string -> Request + error.

Definition call (i : Invocation) : M Reply :=
  fun w => (remote (issued w) i,
            {| client := client w; issued := issued w ++ [i];
               performed := performed w |}).

(** Modelled from the spec: [doRequest] and [doRequestWithFiles], which
    are not in [client.go]: the Transport's [invoke(method, params)] and
    [invokeWithFiles(method, params, fileStreams)], one synchronous call
    each, answered by a result or an error. *)
Definition doRequest (method : string) (req : option Values.t) : M Reply :=
  call (Invoke method req).

Definition doRequestWithFiles (method : string) (req : option Values.t)
    (mwf : files) : M Reply :=
  call (InvokeWithFiles method req mwf).

Definition httpDo (r : Request) : M (Response + error) :=
  fun w => (Do (performed w) r,
            {| client := client w; issued := issued w;
               performed := performed w ++ [r] |}).

(** Generic message options *)
Definition OptParseModeHTML : SendOption := Values.set "parse_mode" "HTML".
Definition OptDisableNotification : SendOption :=
  Values.set "disable_notification" "true".
Definition OptReplyToMessageID (id : Z) : SendOption :=
  Values.set "reply_to_message_id" (Itoa id).
Definition OptDisableWebPagePreview : SendOption :=
  Values.set "disable_web_page_preview" "true".
Definition OptDuration (duration : Z) : SendOption :=
  Values.set "duration" (Itoa duration).
Definition OptPerformer (performer : string) : SendOption :=
  Values.set "performer" performer.
Definition OptTitle (title : string) : SendOption :=
  Values.set "title" title.
Definition OptCaption (caption : string) : SendOption :=
  Values.set "caption" caption.
Definition OptThumb (filename : string) : SendOption :=
  Values.set "thumb" filename.

(** Modelled from the spec: [getUpdates(offset, limit, timeout) -> []Update],
    the Transport's long-poll call, which is not in [client.go]: one
    "getUpdates" call carrying the three numbers, answered by a batch of
    updates or by an error; a reply that does not decode as a batch is a
    decode error. *)
Definition getUpdates_params (offset limit timeout0 : Z) : Values.t :=
  Values.set "timeout" (Itoa timeout0)
    (Values.set "limit" (Itoa limit)
       (Values.set "offset" (Itoa offset) ∅)).

Definition getUpdates (offset limit timeout0 : Z) : M (list Update + error) :=
  r <- doRequest "getUpdates" (Some (getUpdates_params offset limit timeout0)) ;;
  match err r with
  | Some e => ret (inr e)
  | None =>
      match result r with
      | RUpdates us => ret (inl us)
      | _ => ret (inr (Errorf "failed to decode updates" []))
      end
  end.

(** [func (c *Client) GetMe()], which passes a nil parameter map. *)
Definition GetMe : M Reply := doRequest "getMe" None.

(** [func (c *Client) setWebhook(webhookURL string) error] *)
Definition setWebhook (webhookURL : string) : M Reply :=
  let req : Values.t := ∅ in
  let req := Values.set "url" webhookURL req in
  doRequest "setWebhook" (Some req).

(** [func (c *Client) deleteWebhook() error] *)
Definition deleteWebhook : M Reply :=
  doRequest "deleteWebhook" (Some ∅).

(** [func (c *Client) SendMessage(chatID string, text string, opts ...SendOption)] *)
Definition SendMessage (chatID text : string) (opts : list SendOption)
    : M Reply :=
  let req : Values.t := ∅ in
  let req := Values.set "chat_id" chatID req in
  let req := Values.set "text" text req in
  let req := apply_opts opts req in
  doRequest "sendMessage" (Some req).

(** [func (c *Client) SendAnimation(chatID string, fileID string, opts ...SendOption)] *)
Definition SendAnimation (chatID fileID : string) (opts : list SendOption)
    : M Reply :=
  let req : Values.t := ∅ in
  let req := Values.set "chat_id" chatID req in
  let req := Values.set "animation" fileID req in
  let req := apply_opts opts req in
  if (0 <? String.length (Values.get "thumb" req))%nat then
    let thumb := Values.get "thumb" req in
    let req := Values.del "thumb" req in
    let mwf := {| files_ := [] |} in
    let mwf := files_Add [{| field := "thumb"; name := thumb |}] mwf in
    doRequestWithFiles "sendAnimation" (Some req) mwf
  else
    doRequest "sendAnimation" (Some req).

(** [func (c *Client) SendVideoNote(chatID string, fileID string, opts ...SendOption)] *)
Definition SendVideoNote (chatID fileID : string) (opts : list SendOption)
    : M Reply :=
  let req : Values.t := ∅ in
  let req := Values.set "chat_id" chatID req in
  let req := Values.set "video_note" fileID req in
  let req := apply_opts opts req in
  if (0 <? String.length (Values.get "thumb" req))%nat then
    let thumb := Values.get "thumb" req in
    let req := Values.del "thumb" req in
    let mwf := {| files_ := [] |} in
    let mwf := files_Add [{| field := "thumb"; name := thumb |}] mwf in
    doRequestWithFiles "sendVideoNote" (Some req) mwf
  else
    doRequest "sendVideoNote" (Some req).

(** [func (c *Client) DownloadFile(file File) (io.Reader, error)]: the
    reader is [None] for Go's nil, and so is the error. *)
Definition DownloadFile (file : File) : M (option string * option error) :=
  if (String.length (FilePath file) =? 0)%nat then
    ret (None, Some (Errorf "filepath is empty" []))
  else
    c <- self ;;
    let fileURL :=
      Sprintf (filesTrailURL c) [baseURL c; token c; FilePath file] in
    match NewRequest MethodGet fileURL with
    | inr e => ret (None, Some (Errorf "failed to create request, %v" [OpV e]))
    | inl r =>
        resp <- httpDo r ;;
        match resp with
        | inr e =>
            ret (None, Some (Errorf "failed to download file, %v" [OpV e]))
        | inl resp =>
            if negb (StatusCode resp =? StatusOK) then
              ret (None,
                   Some (Errorf "received status code is %d, not %d"
                           [OpD (StatusCode resp); OpD StatusOK]))
            else
              match Body resp with
              | inr e =>
                  ret (None,
                       Some (Errorf "failed to read response body, %v" [OpV e]))
              | inl body => ret (Some body, None)
              end
        end
    end.

End Client.


(** ** Options, seen from the map they act on *)

(** An option writes [v] under [k] whatever map it is given. *)
Definition writes (k v : string) (o : SendOption) : Prop :=
  forall r : Values.t, o r !! k = Some [v].

(** An option leaves the entry of [k] as it found it. *)
Definition keeps (k : string) (o : SendOption) : Prop :=
  forall r : Values.t, o r !! k = r !! k.

(** * The update engine *)

(** ** Handler Registry *)

(** Modelled from the spec: a Handler Entry is a pattern (exact command
    string, prefix, or predicate) plus a callback; the callback succeeds,
    returns an error or raises one. *)
Inductive Outcome : Type :=
| Done
| Returned (e : error)
| Raised (e : error).

(** Modelled from the spec: the pattern of a Handler Entry. *)
Inductive Pattern : Type :=
| Exact (command : string)
| Prefix (p : string)
| Predicate (f : Update -> bool).

(** Modelled from the spec: a pattern plus a callback capability. *)
Record HandlerEntry : Type := {
  pattern : Pattern;
  callback : Update -> Outcome
}.

(** Modelled from the spec: the registry is an ordered table that supports
    registration only. *)
Definition Registry : Type := list HandlerEntry.

(** Modelled from the spec: registration appends, so the table keeps the
    insertion order. *)
Definition Register_handler (e : HandlerEntry) (r : Registry) : Registry :=
  r ++ [e].

(** Modelled from the spec: the text of a [Message] or [EditedMessage]. *)
Definition text_of (u : Update) : option string :=
  match payload u with
  | Message t | EditedMessage t => Some t
  | _ => None
  end.

Fixpoint take_until (stop : ascii -> bool) (s : string) : string :=
  match s with
  | EmptyString => EmptyString
  | String ch rest => if stop ch then EmptyString else String ch (take_until stop rest)
  end.

(** Modelled from the spec: a text that begins with [/] carries a command
    token, which ends at the first space and loses any [@botname] suffix. *)
Definition command_token (text : string) : option string :=
  match text with
  | String "/"%char _ =>
      Some (take_until (fun ch => Ascii.eqb ch " "%char || Ascii.eqb ch "@"%char) text)
  | _ => None
  end.

(** Modelled from the spec: the three priority tiers of a Route Match,
    most specific first. *)
Definition tier (p : Pattern) : nat :=
  match p with
  | Exact _ => 0
  | Prefix _ => 1
  | Predicate _ => 2
  end.

(** Modelled from the spec: an exact command entry matches the command
    token, case-sensitively; a prefix entry matches a text that begins
    with it; a predicate decides by itself. *)
Definition matches (p : Pattern) (u : Update) : bool :=
  match p with
  | Exact c =>
      match text_of u with
      | Some t =>
          match command_token t with
          | Some tok => String.eqb tok c
          | None => false
          end
      | None => false
      end
  | Prefix p =>
      match text_of u with
      | Some t => String.prefix p t
      | None => false
      end
  | Predicate f => f u
  end.

Definition in_tier (n : nat) (u : Update) (e : HandlerEntry) : bool :=
  (tier (pattern e) =? n)%nat && matches (pattern e) u.

(** Modelled from the spec: [Match(update) -> (Handler, matched)]: zero or
    one handler, by specificity order (exact command match, then prefix
    match, then catch-all predicate), the first registered entry winning
    inside a tier. *)
Definition Match (r : Registry) (u : Update) : option HandlerEntry :=
  match List.find (in_tier 0 u) r with
  | Some e => Some e
  | None =>
      match List.find (in_tier 1 u) r with
      | Some e => Some e
      | None => List.find (in_tier 2 u) r
      end
  end.

(** ** Dispatcher *)

(** Modelled from the spec: what the engine does, in the order it does it:
    an update handed to the Dispatcher, a handler invoked, a failure
    logged, the cursor advanced, a backoff before the retry. *)
Inductive Event : Type :=
| Handoff (u : Update)
| Invoked (e : HandlerEntry) (u : Update)
| Logged (e : error)
| Advanced (cursor : Z)
| Backoff (delay : nat).

(** Modelled from the spec: given one Update, find and invoke the correct
    Handler Entry; an update that matches nothing is silently dropped; a
    failing invocation is caught here and logged, and nothing of it
    reaches the Update Source; a failed invocation is not retried. *)
Definition dispatch (reg : Registry) (u : Update) : list Event :=
  match Match reg u with
  | None => []
  | Some e =>
      match callback e u with
      | Done => [Invoked e u]
      | Returned x | Raised x => [Invoked e u; Logged x]
      end
  end.

(** ** Poller *)

(** Modelled from the spec: ascending [UpdateID] order of a batch. *)
Fixpoint insert_by_id (u : Update) (l : list Update) : list Update :=
  match l with
  | [] => [u]
  | v :: l' =>
      if UpdateID u <=? UpdateID v then u :: v :: l' else v :: insert_by_id u l'
  end.

(** Modelled from the spec: the batch in the order the Poller hands it
    over. *)
Definition ascending (us : list Update) : list Update :=
  fold_right insert_by_id [] us.

Definition le_id (u v : Update) : Prop := UpdateID u <= UpdateID v.

(** Modelled from the spec: [max(UpdateID)] of a batch, none for an empty
    one. *)
Definition max_UpdateID (us : list Update) : option Z :=
  match us with
  | [] => None
  | u :: us' => Some (fold_left (fun m v => Z.max m (UpdateID v)) us' (UpdateID u))
  end.

(** Modelled from the spec: the engine of one running instance: the client
    (whose [nextOffset] field is the offset cursor), the handler table,
    which Update Source is active, and the Poller's failure bookkeeping. *)
Record Engine : Type := {
  world : World;
  registry : Registry;
  polling : bool;
  webhook : option string;
  trace : list Event;
  delay : nat;
  strikes : nat;
  fatal : option error
}.

(** Modelled from the spec: the offset cursor, integer state owned by the
    Poller; it lives in the client's [nextOffset] field. *)
Definition cursor (en : Engine) : Z := nextOffset (client (world en)).

Definition with_cursor (z : Z) (w : World) : World :=
  {| client := set_nextOffset z (client w); issued := issued w;
     performed := performed w |}.

Section Engine.

Variable remote : list Invocation -> Invocation -> Reply.
(** Which transport errors are categorically fatal (invalid credentials
    and the like), and the backoff ceiling of the Poller's configuration. *)
Variable is_fatal : error -> bool.
Variable ceiling : nat.

(** Modelled from the spec: exponential backoff with a ceiling. *)
Definition next_delay (d : nat) : nat :=
  Nat.min ceiling (if (d =? 0)%nat then 1 else 2 * d)%nat.

(** Modelled from the spec: [Start()] fails fast, without beginning the
    loop, while a webhook is registered with the remote service;
    otherwise the cursor is created at 0 and the loop begins. *)
Definition Start (en : Engine) : option error * Engine :=
  match webhook en with
  | Some _ =>
      (Some (Errorf "webhook is registered, delete it before polling" []), en)
  | None =>
      (None,
       {| world := with_cursor 0 (world en); registry := registry en;
          polling := true; webhook := None; trace := trace en;
          delay := 0; strikes := 0; fatal := None |})
  end.

(** Modelled from the spec: [Stop()] ends the loop; the cursor stays at
    its last advanced value. *)
Definition Stop (en : Engine) : Engine :=
  {| world := world en; registry := registry en; polling := false;
     webhook := webhook en; trace := trace en; delay := delay en;
     strikes := strikes en; fatal := fatal en |}.

(** Modelled from the spec: the loop body. On success every update of the batch is handed to the
    Dispatcher, in ascending [UpdateID] order and one at a time, and only
    then the cursor moves to [max(UpdateID)+1]; on failure the Poller
    logs and backs off, and the third categorically fatal error in a row
    stops the loop. *)
(** Modelled from the spec: the call of the loop body,
    [getUpdates(offset=cursor, limit=bufferSize, timeout=longPollSeconds)]. *)
Definition fetch (en : Engine) : (list Update + error) * World :=
  let c := client (world en) in
  getUpdates remote (nextOffset c) (bufferSize c) (timeout c) (world en).

Definition poll_once (en : Engine) : Engine :=
  let '(r, w) := fetch en in
  match r with
  | inl us =>
      let handed :=
        flat_map (fun u => Handoff u :: dispatch (registry en) u) (ascending us) in
      match max_UpdateID us with
      | Some m =>
          {| world := with_cursor (m + 1) w; registry := registry en;
             polling := polling en; webhook := webhook en;
             trace := trace en ++ handed ++ [Advanced (m + 1)];
             delay := 0; strikes := 0; fatal := fatal en |}
      | None =>
          {| world := w; registry := registry en;
             polling := polling en; webhook := webhook en;
             trace := trace en ++ handed;
             delay := 0; strikes := 0; fatal := fatal en |}
      end
  | inr e =>
      let d := next_delay (delay en) in
      let k := if is_fatal e then S (strikes en) else 0%nat in
      {| world := w; registry := registry en;
         polling := if (3 <=? k)%nat then false else polling en;
         webhook := webhook en;
         trace := trace en ++ [Logged e; Backoff d];
         delay := d; strikes := k;
         fatal := if (3 <=? k)%nat then Some e else fatal en |}
  end.


(** ** Webhook Receiver *)

(** Modelled from the spec: [Register(url)] calls the remote "set
    webhook" operation and fails while a Poller is active. *)
Definition Register (webhookURL : string) (en : Engine) : option error * Engine :=
  if polling en then
    (Some (Errorf "poller is active, stop it before registering a webhook" []), en)
  else
    let '(r, w) := setWebhook remote webhookURL (world en) in
    (err r,
     {| world := w; registry := registry en; polling := polling en;
        webhook := match err r with
                   | None => Some webhookURL
                   | Some _ => webhook en
                   end;
        trace := trace en; delay := delay en; strikes := strikes en;
        fatal := fatal en |}).

(** Modelled from the spec: [Unregister()] calls "delete webhook". *)
Definition Unregister (en : Engine) : option error * Engine :=
  let '(r, w) := deleteWebhook remote (world en) in
  (err r,
   {| world := w; registry := registry en; polling := polling en;
      webhook := match err r with
                 | None => None
                 | Some _ => webhook en
                 end;
      trace := trace en; delay := delay en; strikes := strikes en;
      fatal := fatal en |}).

(** Modelled from the spec: what the owner of the engine can do to it, and
    the engine after any sequence of these. *)
Inductive Op : Type :=
| DoStart
| DoStop
| DoPoll
| DoRegister (webhookURL : string)
| DoUnregister.

Definition step (en : Engine) (op : Op) : Engine :=
  match op with
  | DoStart => snd (Start en)
  | DoStop => Stop en
  | DoPoll => if polling en then poll_once en else en
  | DoRegister u => snd (Register u en)
  | DoUnregister => snd (Unregister en)
  end.

Definition exec (ops : list Op) (en : Engine) : Engine :=
  fold_left step ops en.

End Engine.

(** The number of Update Sources that are active. *)
Definition active_sources (en : Engine) : nat :=
  ((if polling en then 1 else 0) +
   (match webhook en with Some _ => 1 | None => 0 end))%nat.

(** An engine as it is built: no source active, nothing done yet. *)
Definition new_engine (c : Client) (reg : Registry) : Engine :=
  {| world := {| client := c; issued := []; performed := [] |};
     registry := reg; polling := false; webhook := None; trace := [];
     delay := 0; strikes := 0; fatal := None |}.


(** The updates a trace hands to the Dispatcher, and the handlers it
    invokes, each in the order of the trace. *)
Definition handoffs (evs : list Event) : list Update :=
  flat_map (fun ev => match ev with Handoff u => [u] | _ => [] end) evs.

Definition invocations (evs : list Event) : list (HandlerEntry * Update) :=
  flat_map (fun ev => match ev with Invoked e u => [(e, u)] | _ => [] end) evs.

(** Modelled from the spec: the webhook the remote service holds after a
    sequence of calls it accepted: "set webhook" registers the URL it is
    given, "delete webhook" removes whatever is registered. *)
Definition registered_after (calls : list Invocation) (before : option string)
    : option string :=
  fold_left
    (fun hook i =>
       match i with
       | Invoke m (Some p) =>
           if String.eqb m "setWebhook" then Some (Values.get "url" p)
           else if String.eqb m "deleteWebhook" then None
           else hook
       | _ => hook
       end)
    calls before.

(** * More of [client.go] *)

(** [fmt.Sprint] of a bool. *)
Definition Sprint_bool (b : bool) : string := if b then "true" else "false".

(** An option that is one [Set] of a key, as every option of [client.go]
    is; [setter] takes the key and the value as a pair. *)
Definition setter (kv : string * string) : SendOption :=
  Values.set (fst kv) (snd kv).

(** The value the last pair on [k] gives it, if any pair is on [k]. *)
Definition written (k : string) (kvs : list (string * string)) : option string :=
  fold_left (fun acc kv => if decide (fst kv = k) then Some (snd kv) else acc)
    kvs None.

(** [type Restrictions struct] *)
Record Restrictions : Type := {
  CanSendMessages : bool;
  CanSendMediaMessages : bool;
  CanSendOtherMessages : bool;
  CanAddWebPagePreviews : bool
}.

(** [type Promotions struct] *)
Record Promotions : Type := {
  CanChangeInfo : bool;
  CanPostMessages : bool;
  CanEditMessages : bool;
  CanDeleteMessages : bool;
  CanInviteUsers : bool;
  CanRestrictMembers : bool;
  CanPinMessages : bool;
  CanPromoteMembers : bool
}.

(** A method that dereferences a nil pointer panics before it returns. *)
Inductive Panic : Type := NilDereference.

Section Builders.

Variable remote : list Invocation -> Invocation -> Reply.

(** SendVideo options *)
Definition OptWidth (width : Z) : SendOption := Values.set "width" (Itoa width).
Definition OptHeight (height : Z) : SendOption := Values.set "height" (Itoa height).
(** [func (c *Client) SendAudio(chatID string, fileID string, opts ...SendOption)] *)
Definition SendAudio (chatID fileID : string) (opts : list SendOption) : M Reply :=
  let req : Values.t := ∅ in
  let req := Values.set "chat_id" chatID req in
  let req := Values.set "audio" fileID req in
  let req := apply_opts opts req in
  doRequest remote "sendAudio" (Some req).

(** [func (c *Client) SendAudioFile(chatID string, filename string, opts ...SendOption)] *)
Definition SendAudioFile (chatID filename : string) (opts : list SendOption)
    : M Reply :=
  let req : Values.t := ∅ in
  let req := Values.set "chat_id" chatID req in
  let req := apply_opts opts req in
  let mwf := {| files_ := [] |} in
  let mwf := files_Add [{| field := "audio"; name := filename |}] mwf in
  doRequestWithFiles remote "sendAudio" (Some req) mwf.

(** [func (c *Client) SendPhoto(chatID string, fileID string, opts ...SendOption)] *)
Definition SendPhoto (chatID fileID : string) (opts : list SendOption) : M Reply :=
  let req : Values.t := ∅ in
  let req := Values.set "chat_id" chatID req in
  let req := Values.set "photo" fileID req in
  let req := apply_opts opts req in
  doRequest remote "sendPhoto" (Some req).

(** [func (c *Client) SendPhotoFile(chatID string, filename string, opts ...SendOption)] *)
Definition SendPhotoFile (chatID filename : string) (opts : list SendOption)
    : M Reply :=
  let req : Values.t := ∅ in
  let req := Values.set "chat_id" chatID req in
  let req := apply_opts opts req in
  let mwf := {| files_ := [] |} in
  let mwf := files_Add [{| field := "photo"; name := filename |}] mwf in
  doRequestWithFiles remote "sendPhoto" (Some req) mwf.

(** [func (c *Client) SendDocument(chatID string, fileID string, opts ...SendOption)] *)
Definition SendDocument (chatID fileID : string) (opts : list SendOption)
    : M Reply :=
  let req : Values.t := ∅ in
  let req := Values.set "chat_id" chatID req in
  let req := Values.set "document" fileID req in
  let req := apply_opts opts req in
  doRequest remote "sendDocument" (Some req).

(** [func (c *Client) SendDocumentFile(chatID string, filename string, opts ...SendOption)] *)
Definition SendDocumentFile (chatID filename : string) (opts : list SendOption)
    : M Reply :=
  let req : Values.t := ∅ in
  let req := Values.set "chat_id" chatID req in
  let req := apply_opts opts req in
  let mwf := {| files_ := [] |} in
  let mwf := files_Add [{| field := "document"; name := filename |}] mwf in
  doRequestWithFiles remote "sendDocument" (Some req) mwf.

(** [func (c *Client) SendVideo(chatID string, fileID string, opts ...SendOption)] *)
Definition SendVideo (chatID fileID : string) (opts : list SendOption) : M Reply :=
  let req : Values.t := ∅ in
  let req := Values.set "chat_id" chatID req in
  let req := Values.set "video" fileID req in
  let req := apply_opts opts req in
  doRequest remote "sendVideo" (Some req).

(** [func (c *Client) SendVideoFile(chatID string, filename string, opts ...SendOption)] *)
Definition SendVideoFile (chatID filename : string) (opts : list SendOption)
    : M Reply :=
  let req : Values.t := ∅ in
  let req := Values.set "chat_id" chatID req in
  let req := apply_opts opts req in
  let mwf := {| files_ := [] |} in
  let mwf := files_Add [{| field := "video"; name := filename |}] mwf in
  doRequestWithFiles remote "sendVideo" (Some req) mwf.

(** [func (c *Client) SendAnimationFile(chatID string, filename string, opts ...SendOption)] *)
Definition SendAnimationFile (chatID filename : string) (opts : list SendOption)
    : M Reply :=
  let req : Values.t := ∅ in
  let req := Values.set "chat_id" chatID req in
  let req := apply_opts opts req in
  let mwf := {| files_ := [] |} in
  let mwf := files_Add [{| field := "animation"; name := filename |}] mwf in
  let '(req, mwf) :=
    if (0 <? String.length (Values.get "thumb" req))%nat then
      let thumb := Values.get "thumb" req in
      (Values.del "thumb" req,
       files_Add [{| field := "thumb"; name := thumb |}] mwf)
    else (req, mwf) in
  doRequestWithFiles remote "sendAnimation" (Some req) mwf.

(** [func (c *Client) SendVoice(chatID string, fileID string, opts ...SendOption)] *)
Definition SendVoice (chatID fileID : string) (opts : list SendOption) : M Reply :=
  let req : Values.t := ∅ in
  let req := Values.set "chat_id" chatID req in
  let req := Values.set "voice" fileID req in
  let req := apply_opts opts req in
  doRequest remote "sendVoice" (Some req).

(** [func (c *Client) SendVoiceFile(chatID string, filename string, opts ...SendOption)] *)
Definition SendVoiceFile (chatID filename : string) (opts : list SendOption)
    : M Reply :=
  let req : Values.t := ∅ in
  let req := Values.set "chat_id" chatID req in
  let req := apply_opts opts req in
  let mwf := {| files_ := [] |} in
  let mwf := files_Add [{| field := "voice"; name := filename |}] mwf in
  doRequestWithFiles remote "sendVoice" (Some req) mwf.

(** [func (c *Client) SendVideoNoteFile(chatID string, filename string, opts ...SendOption)] *)
Definition SendVideoNoteFile (chatID filename : string) (opts : list SendOption)
    : M Reply :=
  let req : Values.t := ∅ in
  let req := Values.set "chat_id" chatID req in
  let req := apply_opts opts req in
  let mfw := {| files_ := [] |} in
  let mfw := files_Add [{| field := "video_note"; name := filename |}] mfw in
  let '(req, mfw) :=
    if (0 <? String.length (Values.get "thumb" req))%nat then
      let thumb := Values.get "thumb" req in
      (Values.del "thumb" req,
       files_Add [{| field := "thumb"; name := thumb |}] mfw)
    else (req, mfw) in
  doRequestWithFiles remote "sendVideoNote" (Some req) mfw.

(** [func (c *Client) SendSticker(chatID, fileID string, opts ...SendOption)] *)
Definition SendSticker (chatID fileID : string) (opts : list SendOption)
    : M Reply :=
  let req : Values.t := ∅ in
  let req := Values.set "chat_id" chatID req in
  let req := Values.set "sticker" fileID req in
  let req := apply_opts opts req in
  doRequest remote "sendSticker" (Some req).

(** [func (c *Client) SendStickerFile(chatID string, filename string, opts ...SendOption)] *)
Definition SendStickerFile (chatID filename : string) (opts : list SendOption)
    : M Reply :=
  let req : Values.t := ∅ in
  let req := Values.set "chat_id" chatID req in
  let req := apply_opts opts req in
  let mwf := {| files_ := [] |} in
  let mwf := files_Add [{| field := "sticker"; name := filename |}] mwf in
  doRequestWithFiles remote "sendSticker" (Some req) mwf.

(** [func (c *Client) StopMessageLiveLocation(chatID string, messageID int, opts ...SendOption)] *)
Definition StopMessageLiveLocation (chatID : string) (messageID : Z)
    (opts : list SendOption) : M Reply :=
  let req : Values.t := ∅ in
  let req := Values.set "chat_id" chatID req in
  let req := Values.set "message_id" (Itoa messageID) req in
  let req := apply_opts opts req in
  doRequest remote "stopMessageLiveLocation" (Some req).

(** [func (c *Client) StopInlineMessageLiveLocation(inlineMessageID string, opts ...SendOption)] *)
Definition StopInlineMessageLiveLocation (inlineMessageID : string)
    (opts : list SendOption) : M Reply :=
  let req : Values.t := ∅ in
  let req := Values.set "inline_message_id" inlineMessageID req in
  let req := apply_opts opts req in
  doRequest remote "stopMessageLiveLocation" (Some req).

(** [func (c *Client) EditMessageText(chatID string, messageID int, text string, opts ...SendOption)] *)
Definition EditMessageText (chatID : string) (messageID : Z) (text : string)
    (opts : list SendOption) : M Reply :=
  let req : Values.t := ∅ in
  let req := Values.set "chat_id" chatID req in
  let req := Values.set "message_id" (Itoa messageID) req in
  let req := Values.set "text" text req in
  let req := apply_opts opts req in
  doRequest remote "editMessageText" (Some req).

(** [func (c *Client) EditInlineMessageText(inlineMessageID, text string, opts ...SendOption)] *)
Definition EditInlineMessageText (inlineMessageID text : string)
    (opts : list SendOption) : M Reply :=
  let req : Values.t := ∅ in
  let req := Values.set "inline_message_id" inlineMessageID req in
  let req := Values.set "text" text req in
  let req := apply_opts opts req in
  doRequest remote "editMessageText" (Some req).

(** [func (c *Client) EditMessageCaption(chatID string, messageID int, caption string, opts ...SendOption)] *)
Definition EditMessageCaption (chatID : string) (messageID : Z) (caption : string)
    (opts : list SendOption) : M Reply :=
  let req : Values.t := ∅ in
  let req := Values.set "chat_id" chatID req in
  let req := Values.set "message_id" (Itoa messageID) req in
  let req := Values.set "caption" caption req in
  let req := apply_opts opts req in
  doRequest remote "editMessageCaption" (Some req).

(** [func (c *Client) EditInlineMessageCaption(inlineMessageID, caption string, opts ...SendOption)] *)
Definition EditInlineMessageCaption (inlineMessageID caption : string)
    (opts : list SendOption) : M Reply :=
  let req : Values.t := ∅ in
  let req := Values.set "inline_message_id" inlineMessageID req in
  let req := Values.set "caption" caption req in
  let req := apply_opts opts req in
  doRequest remote "editMessageCaption" (Some req).

(** [func (c *Client) EditMessageReplyMarkup(chatID string, messageID int, opts ...SendOption)] *)
Definition EditMessageReplyMarkup (chatID : string) (messageID : Z)
    (opts : list SendOption) : M Reply :=
  let req : Values.t := ∅ in
  let req := Values.set "chat_id" chatID req in
  let req := Values.set "message_id" (Itoa messageID) req in
  let req := apply_opts opts req in
  doRequest remote "editMessageReplyMarkup" (Some req).

(** [func (c *Client) EditInlineMessageReplyMarkup(inlineMessageID string, opts ...SendOption)] *)
Definition EditInlineMessageReplyMarkup (inlineMessageID : string)
    (opts : list SendOption) : M Reply :=
  let req : Values.t := ∅ in
  let req := Values.set "inline_message_id" inlineMessageID req in
  let req := apply_opts opts req in
  doRequest remote "editMessageReplyMarkup" (Some req).

(** [func (c *Client) SetGameScore(chatID string, messageID, userID, score int, opts ...SendOption)] *)
Definition SetGameScore (chatID : string) (messageID userID score : Z)
    (opts : list SendOption) : M Reply :=
  let req : Values.t := ∅ in
  let req := Values.set "chat_id" chatID req in
  let req := Values.set "message_id" (Itoa messageID) req in
  let req := Values.set "user_id" (Itoa userID) req in
  let req := Values.set "score" (Itoa score) req in
  let req := apply_opts opts req in
  doRequest remote "setGameScore" (Some req).

(** [func (c *Client) SetInlineGameScore(inlineMessageID string, userID, score int, opts ...SendOption)] *)
Definition SetInlineGameScore (inlineMessageID : string) (userID score : Z)
    (opts : list SendOption) : M Reply :=
  let req : Values.t := ∅ in
  let req := Values.set "inline_message_id" inlineMessageID req in
  let req := Values.set "user_id" (Itoa userID) req in
  let req := Values.set "score" (Itoa score) req in
  let req := apply_opts opts req in
  doRequest remote "setGameScore" (Some req).

(** [func (c *Client) RestrictChatMember(chatID string, userID int, r *Restrictions, opts ...SendOption) error]:
    a nil [r] is dereferenced before any request is made. *)
Definition RestrictChatMember (chatID : string) (userID : Z)
    (r : option Restrictions) (opts : list SendOption) : M (Reply + Panic) :=
  let req : Values.t := ∅ in
  let req := Values.set "chat_id" chatID req in
  let req := Values.set "user_id" (Itoa userID) req in
  match r with
  | None => ret (inr NilDereference)
  | Some r =>
      let req := Values.set "can_send_messages" (Sprint_bool (CanSendMessages r)) req in
      let req := Values.set "can_send_media_messages"
                   (Sprint_bool (CanSendMediaMessages r)) req in
      let req := Values.set "can_send_other_messages"
                   (Sprint_bool (CanSendOtherMessages r)) req in
      let req := Values.set "can_add_web_page_previews"
                   (Sprint_bool (CanAddWebPagePreviews r)) req in
      let req := apply_opts opts req in
      x <- doRequest remote "restrictChatMember" (Some req) ;;
      ret (inl x)
  end.

(** [func (c *Client) PromoteChatMember(chatID string, userID int, p *Promotions) error]:
    a nil [p] is dereferenced before any request is made. *)
Definition PromoteChatMember (chatID : string) (userID : Z)
    (p : option Promotions) : M (Reply + Panic) :=
  let req : Values.t := ∅ in
  let req := Values.set "chat_id" chatID req in
  let req := Values.set "user_id" (Itoa userID) req in
  match p with
  | None => ret (inr NilDereference)
  | Some p =>
      let req := Values.set "can_change_info" (Sprint_bool (CanChangeInfo p)) req in
      let req := Values.set "can_post_messages" (Sprint_bool (CanPostMessages p)) req in
      let req := Values.set "can_edit_messages" (Sprint_bool (CanEditMessages p)) req in
      let req := Values.set "can_delete_messages"
                   (Sprint_bool (CanDeleteMessages p)) req in
      let req := Values.set "can_invite_users" (Sprint_bool (CanInviteUsers p)) req in
      let req := Values.set "can_restrict_members"
                   (Sprint_bool (CanRestrictMembers p)) req in
      let req := Values.set "can_pin_messages" (Sprint_bool (CanPinMessages p)) req in
      let req := Values.set "can_promote_member"
                   (Sprint_bool (CanPromoteMembers p)) req in
      x <- doRequest remote "promoteChatMember" (Some req) ;;
      ret (inl x)
  end.

End Builders.

(** ** [files.Write] and [readers]: the multipart body *)

(** One form file of a [multipart.Writer]: the field name and the file
    name [CreateFormFile] was given, and the bytes copied into it. *)
Record Part : Type := { formField : string; fileName : string; content : string }.

(** What [Write] asks of the operating system. *)
Inductive OsCall : Type :=
| Opened (path : string)
| Closed (path : string).

(** The [multipart.Writer] and the trail of [os] calls. *)
Record Disk : Type := { parts : list Part; oslog : list OsCall }.

Definition disk_open (path : string) (d : Disk) : Disk :=
  {| parts := parts d; oslog := oslog d ++ [Opened path] |}.
Definition disk_close (path : string) (d : Disk) : Disk :=
  {| parts := parts d; oslog := oslog d ++ [Closed path] |}.
Definition disk_part (p : Part) (d : Disk) : Disk :=
  {| parts := parts d ++ [p]; oslog := oslog d |}.

(** [type readers struct { readers map[string]io.Reader }]; an [io.Reader]
    stands for the bytes it has to give, and [io.Copy] below decides how
    many of them get through. *)
Definition newMultipartReaders : gmap string string := ∅.

(** [func (m *readers) Add(field string, r io.Reader) { m.readers[field] = r }] *)
Definition readers_Add (field0 : string) (r : string) (m : gmap string string)
    : gmap string string :=
  <[field0 := r]> m.

Section Write.

(** [os.Open]: the bytes of the file or the error. *)
Variable os_Open : string -> string + error.
(** [w.CreateFormFile(field, name)], which may fail. *)
Variable CreateFormFile : string -> string -> option error.
(** [io.Copy] into a form file, from the open file or the reader named by
    the first argument: the bytes that got through and the error that
    stopped it, if any. *)
Variable io_Copy : string -> string -> string * option error.
(** [f.Close()]. *)
Variable file_Close : string -> option error.

(** [func (m *files) Write(w *multipart.Writer) error] *)
Fixpoint files_Write (fs : list inputFile) (d : Disk) : option error * Disk :=
  match fs with
  | [] => (None, d)
  | file :: rest =>
      match os_Open (name file) with
      | inr e => (Some e, d)
      | inl data =>
          let d := disk_open (name file) d in
          match CreateFormFile (field file) (name file) with
          | Some e => (Some e, d)
          | None =>
              let '(copied, stopped) := io_Copy (name file) data in
              let d := disk_part {| formField := field file;
                                    fileName := name file;
                                    content := copied |} d in
              match stopped with
              | Some e => (Some (Errorf "failed to write file, %v" [OpV e]), d)
              | None =>
                  let closed := file_Close (name file) in
                  let d := disk_close (name file) d in
                  match closed with
                  | Some e =>
                      (Some (Errorf "failed to close file, %v" [OpV e]), d)
                  | None => files_Write rest d
                  end
              end
          end
      end
  end.

(** [func (m *readers) Write(w *multipart.Writer) error], over the order
    in which [range] happens to visit the map; [i] numbers the files, and
    [fmt.Sprintf("file_%d", i)] names them. *)
Fixpoint readers_Write_from (i : Z) (visit : list (string * string)) (d : Disk)
    : option error * Disk :=
  match visit with
  | [] => (None, d)
  | (field0, reader) :: rest =>
      match CreateFormFile field0 ("file_" +:+ Itoa i) with
      | Some e => (Some e, d)
      | None =>
          let '(copied, stopped) := io_Copy field0 reader in
          let d := disk_part {| formField := field0;
                                fileName := "file_" +:+ Itoa i;
                                content := copied |} d in
          match stopped with
          | Some e => (Some (Errorf "failed to write writer, %v" [OpV e]), d)
          | None => readers_Write_from (i + 1) rest d
          end
      end
  end.

Definition readers_Write (visit : list (string * string)) (d : Disk)
    : option error * Disk :=
  readers_Write_from 0 visit d.

(** What a file leaves behind when [files.Write] gets through it: its form
    file, holding the bytes copied, and an open followed by a close. *)
Definition file_bytes (path : string) : string :=
  match os_Open path with
  | inl data => data
  | inr _ => ""
  end.

Definition written_part (f : inputFile) : Part :=
  {| formField := field f; fileName := name f;
     content := fst (io_Copy (name f) (file_bytes (name f))) |}.

Definition open_close (f : inputFile) : list OsCall :=
  [Opened (name f); Closed (name f)].

End Write.

(** ** Fixtures: a simulated Transport and a small registry *)

Definition ok_reply : Reply := {| result := RBool true; err := None |}.

Definition always_ok : list Invocation -> Invocation -> Reply :=
  fun _ _ => ok_reply.

(** A remote service that holds [pending] updates and answers
    [getUpdates] with those at or above the offset. *)
Definition simulated (pending : list Update) : list Invocation -> Invocation -> Reply :=
  fun _ i =>
    match i with
    | Invoke m (Some p) =>
        if String.eqb m "getUpdates" then
          match Atoi (Values.get "offset" p) with
          | Some o =>
              {| result := RUpdates (List.filter (fun u => o <=? UpdateID u) pending);
                 err := None |}
          | None =>
              {| result := RJson ""; err := Some (RemoteError 400 "Bad Request") |}
          end
        else ok_reply
    | _ => ok_reply
    end.

Definition fresh_world : World :=
  {| client := NewClient "TOKEN" "https://example.com";
     issued := []; performed := [] |}.

Definition plain_request (method url0 : string) : Request + error :=
  inl {| Method := method; URL := url0 |}.

Definition not_found : list Request -> Request -> Response + error :=
  fun _ _ => inl {| StatusCode := 404; Body := inl "" |}.

Definition unauthorized (e : error) : bool :=
  match e with
  | RemoteError code _ => code =? 401
  | _ => false
  end.

Definition msg (id : Z) (text : string) : Update :=
  {| UpdateID := id; payload := Message text |}.

Definition start_entry : HandlerEntry :=
  {| pattern := Exact "/start"; callback := fun _ => Done |}.

Definition catch_all : HandlerEntry :=
  {| pattern := Predicate (fun _ => true); callback := fun _ => Done |}.

Definition failing_entry : HandlerEntry :=
  {| pattern := Exact "/fail";
     callback := fun _ => Returned (Errorf "handler failed" []) |}.

Definition help_prefix : HandlerEntry :=
  {| pattern := Prefix "/st"; callback := fun _ => Done |}.

Definition backlog : list Update :=
  [msg 12 "/start"; msg 10 "/fail"; msg 11 "hello"].

Definition table : Registry :=
  Register_handler catch_all
    (Register_handler start_entry (Register_handler failing_entry [])).

(** An engine whose Poller has just been started. *)
Definition started (reg : Registry) : Engine :=
  snd (Start (new_engine (NewClient "TOKEN" "https://example.com") reg)).

(** No option of the list changes the entry of any of the keys. *)
Definition untouched (keys : list string) (opts : list SendOption) : Prop :=
  Forall (fun o => forall k, In k keys -> keeps k o) opts.

(** A call that names its media by file id: one plain call whose map
    carries the chat and, under [fld], the id. *)
Definition sent_by_reference (method fld chatID fileID : string)
    (before after : list Invocation) : Prop :=
  exists req : Values.t,
    after = before ++ [Invoke method (Some req)]
    /\ req !! "chat_id" = Some [chatID]
    /\ req !! fld = Some [fileID].

(** A call that uploads its media: one multipart call whose only
    attachment is the file under [fld], the map carrying the chat and
    nothing under [fld]. *)
Definition sent_by_upload (method fld chatID filename : string)
    (before after : list Invocation) : Prop :=
  exists req : Values.t,
    after = before ++ [InvokeWithFiles method (Some req)
                         {| files_ := [{| field := fld; name := filename |}] |}]
    /\ req !! "chat_id" = Some [chatID]
    /\ req !! fld = None.

(** A call that addresses a message of a chat, and one that addresses an
    inline message: the same method, told apart by the keys of the map. *)
Definition addresses_chat_message (method chatID : string) (messageID : Z)
    (before after : list Invocation) : Prop :=
  exists req : Values.t,
    after = before ++ [Invoke method (Some req)]
    /\ req !! "chat_id" = Some [chatID]
    /\ Atoi (Values.get "message_id" req) = Some messageID
    /\ req !! "inline_message_id" = None.

Definition addresses_inline_message (method inlineMessageID : string)
    (before after : list Invocation) : Prop :=
  exists req : Values.t,
    after = before ++ [Invoke method (Some req)]
    /\ req !! "inline_message_id" = Some [inlineMessageID]
    /\ req !! "chat_id" = None
    /\ req !! "message_id" = None.

Definition media_keys : list string :=
  ["chat_id"; "audio"; "photo"; "document"; "video"; "animation"; "voice";
   "video_note"; "sticker"; "thumb"].

Definition address_keys : list string :=
  ["chat_id"; "message_id"; "inline_message_id"].

Definition restriction_keys : list string :=
  ["chat_id"; "user_id"; "can_send_messages"; "can_send_media_messages";
   "can_send_other_messages"; "can_add_web_page_previews"].

(** The parameter map and the attachments a call leaves with. *)
Definition call_params (i : Invocation) : option Values.t :=
  match i with
  | Invoke _ req => req
  | InvokeWithFiles _ req _ => req
  end.

Definition call_files (i : Invocation) : list inputFile :=
  match i with
  | Invoke _ _ => []
  | InvokeWithFiles _ _ mwf => files_ mwf
  end.

(** [DownloadFile] with the [httpClient] field as [NewClient] stores it,
    unchecked: [None] is a nil [*http.Client], on which [c.httpClient.Do]
    panics; [Some Do] is a client that answers as [Do] says. *)
Definition DownloadFile_on
    (httpClient : option (list Request -> Request -> Response + error))
    (NewRequest : string -> string -> Request + error)
    (file : File) : M ((option string * option error) + Panic) :=
  if (String.length (FilePath file) =? 0)%nat then
    ret (inl (None, Some (Errorf "filepath is empty" [])))
  else
    c <- self ;;
    let fileURL :=
      Sprintf (filesTrailURL c) [baseURL c; token c; FilePath file] in
    match NewRequest MethodGet fileURL with
    | inr e =>
        ret (inl (None, Some (Errorf "failed to create request, %v" [OpV e])))
    | inl r =>
        match httpClient with
        | None => ret (inr NilDereference)
        | Some Do =>
            resp <- httpDo Do r ;;
            match resp with
            | inr e =>
                ret (inl (None,
                          Some (Errorf "failed to download file, %v" [OpV e])))
            | inl resp =>
                if negb (StatusCode resp =? StatusOK) then
                  ret (inl (None,
                            Some (Errorf "received status code is %d, not %d"
                                    [OpD (StatusCode resp); OpD StatusOK])))
                else
                  match Body resp with
                  | inr e =>
                      ret (inl (None,
                                Some (Errorf "failed to read response body, %v"
                                        [OpV e])))
                  | inl body => ret (inl (Some body, None))
                  end
            end
        end
    end.


(** A file system and a multipart writer that never fail, and ones that
    fail on one path. *)
Definition empty_disk : Disk := {| parts := []; oslog := [] |}.

Definition open_all (path : string) : string + error := inl ("bytes of " +:+ path).

Definition open_but (bad path : string) : string + error :=
  if String.eqb path bad then inr (Errorf "open: no such file" [])
  else inl ("bytes of " +:+ path).

Definition create_all (field0 name0 : string) : option error := None.

Definition create_but (bad field0 name0 : string) : option error :=
  if String.eqb name0 bad then Some (Errorf "multipart: writer closed" [])
  else None.

Definition copy_all (label data : string) : string * option error := (data, None).

Definition copy_but (bad label data : string) : string * option error :=
  if String.eqb label bad then ("", Some (Errorf "read: input/output error" []))
  else (data, None).

Definition close_all (path : string) : option error := None.

Definition ok_response (body : string) : list Request -> Request -> Response + error :=
  fun _ _ => inl {| StatusCode := 200; Body := inl body |}.

(** * Properties *)

(** ** [url.Values] and the option loop *)

Lemma set_writes k v : writes k v (Values.set k v).
Proof. intros r. unfold Values.set. apply lookup_insert_eq. Qed.

Lemma set_keeps k k' v : k <> k' -> keeps k' (Values.set k v).
Proof. intros Hne r. unfold Values.set. by apply lookup_insert_ne. Qed.

Lemma get_lookup k v (r : Values.t) : r !! k = Some [v] -> Values.get k r = v.
Proof. intros H. unfold Values.get. by rewrite H. Qed.

Lemma get_absent k (r : Values.t) : r !! k = None -> Values.get k r = "".
Proof. intros H. unfold Values.get. by rewrite H. Qed.

Lemma apply_opts_app a b r :
  apply_opts (a ++ b) r = apply_opts b (apply_opts a r).
Proof. unfold apply_opts. apply fold_left_app. Qed.

Lemma apply_opts_cons o opts r :
  apply_opts (o :: opts) r = apply_opts opts (o r).
Proof. reflexivity. Qed.

Lemma apply_opts_keeps k opts :
  Forall (keeps k) opts -> forall r, apply_opts opts r !! k = r !! k.
Proof.
  induction 1 as [|o opts Ho _ IH]; intros r; [reflexivity|].
  rewrite apply_opts_cons, IH. apply Ho.
Qed.

(** The last option that writes a key decides its entry. *)
Lemma apply_opts_last_write k v pre o post r :
  writes k v o -> Forall (keeps k) post ->
  apply_opts (pre ++ o :: post) r !! k = Some [v].
Proof.
  intros Hw Hk. rewrite apply_opts_app, apply_opts_cons.
  rewrite (apply_opts_keeps k post Hk). apply Hw.
Qed.

Lemma nonempty_length (s : string) :
  (0 <? String.length s)%nat = true <-> s <> "".
Proof. destruct s as [|a s]; simpl; split; intros H; done. Qed.

Lemma empty_length (s : string) :
  (String.length s =? 0)%nat = true <-> s = "".
Proof. destruct s as [|a s]; simpl; split; intros H; done. Qed.

Lemma Atoi_Itoa z : Atoi (Itoa z) = Some z.
Proof.
  unfold Atoi, Itoa. rewrite NilZero.isi.
  - simpl. by rewrite DecimalZ.of_to.
  - destruct z as [|p|p]; simpl; try done.
    intros [= H]. by apply (DecimalPos.Unsigned.to_uint_nonnil p).
  - destruct z as [|p|p]; simpl; try done.
    intros [= H]. by apply (DecimalPos.Unsigned.to_uint_nonnil p).
Qed.

(** ** The webhook calls *)

Lemma call_issued remote i w :
  issued (snd (call remote i w)) = issued w ++ [i].
Proof. reflexivity. Qed.

Lemma call_client remote i w : client (snd (call remote i w)) = client w.
Proof. reflexivity. Qed.

Lemma getUpdates_world remote offset limit timeout0 w :
  snd (getUpdates remote offset limit timeout0 w) =
  snd (call remote
         (Invoke "getUpdates" (Some (getUpdates_params offset limit timeout0))) w).
Proof.
  unfold getUpdates, bind, doRequest, call, ret. simpl.
  destruct (err _); [reflexivity|]. by destruct (result _).
Qed.

Lemma getUpdates_value remote offset limit timeout0 w :
  fst (getUpdates remote offset limit timeout0 w) =
  let r := remote (issued w)
             (Invoke "getUpdates" (Some (getUpdates_params offset limit timeout0))) in
  match err r with
  | Some e => inr e
  | None =>
      match result r with
      | RUpdates us => inl us
      | _ => inr (Errorf "failed to decode updates" [])
      end
  end.
Proof.
  unfold getUpdates, bind, doRequest, call, ret. simpl.
  destruct (err _); [reflexivity|]. by destruct (result _).
Qed.

(** C6. The Transport supplies [getUpdates(offset, limit, timeout)],
    [setWebhook(url)] and [deleteWebhook()]: for every URL [u],
    [setWebhook u] issues the remote method "setWebhook" with a parameter
    map whose only entry is "url" mapped to [u]; [deleteWebhook] issues
    "deleteWebhook" with an empty parameter map; [getUpdates] issues one
    "getUpdates" call that carries its three numbers and brings back the
    batch of updates of the reply. *)
Theorem transport_operations
    (remote : list Invocation -> Invocation -> Reply)
    (u : string) (offset limit timeout0 : Z) (w : World) :
  issued (snd (setWebhook remote u w))
    = issued w ++ [Invoke "setWebhook" (Some {["url" := [u]]})]
  /\ map_to_list ({["url" := [u]]} : Values.t) = [("url", [u])]
  /\ issued (snd (deleteWebhook remote w))
    = issued w ++ [Invoke "deleteWebhook" (Some ∅)]
  /\ map_to_list (∅ : Values.t) = []
  /\ (let req := getUpdates_params offset limit timeout0 in
      issued (snd (getUpdates remote offset limit timeout0 w))
        = issued w ++ [Invoke "getUpdates" (Some req)]
      /\ Atoi (Values.get "offset" req) = Some offset
      /\ Atoi (Values.get "limit" req) = Some limit
      /\ Atoi (Values.get "timeout" req) = Some timeout0
      /\ fst (getUpdates remote offset limit timeout0 w)
         = match err (remote (issued w) (Invoke "getUpdates" (Some req))) with
           | Some e => inr e
           | None =>
               match result (remote (issued w) (Invoke "getUpdates" (Some req))) with
               | RUpdates us => inl us
               | _ => inr (Errorf "failed to decode updates" [])
               end
           end).
Proof.
  cbv zeta. split_and!.
  - unfold setWebhook, doRequest, Values.set. cbv zeta.
    by rewrite call_issued, insert_empty.
  - apply map_to_list_singleton.
  - reflexivity.
  - apply map_to_list_empty.
  - by rewrite getUpdates_world, call_issued.
  - unfold getUpdates_params, Values.set, Values.get.
    rewrite lookup_insert_ne, lookup_insert_ne, lookup_insert_eq by done.
    apply Atoi_Itoa.
  - unfold getUpdates_params, Values.set, Values.get.
    rewrite lookup_insert_ne, lookup_insert_eq by done.
    apply Atoi_Itoa.
  - unfold getUpdates_params, Values.set, Values.get.
    rewrite lookup_insert_eq. apply Atoi_Itoa.
  - apply getUpdates_value.
Qed.

(** C7. Unregister, the webhook deletion, is idempotent: it reads and
    writes no client state and builds the identical "deleteWebhook" request
    with the same empty parameters on every invocation, so that the remote
    service holds no webhook after one call and after two. *)
Theorem deleteWebhook_idempotent
    (remote : list Invocation -> Invocation -> Reply) (w : World) :
  let w1 := snd (deleteWebhook remote w) in
  let w2 := snd (deleteWebhook remote w1) in
  (client w1 = client w /\ client w2 = client w)
  /\ (performed w1 = performed w /\ performed w2 = performed w)
  /\ issued w1 = issued w ++ [Invoke "deleteWebhook" (Some ∅)]
  /\ issued w2 = issued w1 ++ [Invoke "deleteWebhook" (Some ∅)]
  /\ (forall w' : World,
        exists older,
          issued (snd (deleteWebhook remote w'))
            = older ++ [Invoke "deleteWebhook" (Some ∅)]
          /\ older = issued w')
  /\ (forall before : option string,
        registered_after (issued w2) before = registered_after (issued w1) before
        /\ registered_after (issued w1) before = None).
Proof.
  cbv zeta. unfold deleteWebhook, doRequest.
  rewrite !call_issued, !call_client.
  split_and!; try reflexivity.
  - intros w'. exists (issued w'). by rewrite call_issued.
  - intros before. unfold registered_after. by rewrite !fold_left_app.
Qed.

(** ** Request builders and their options *)





(** The two thumb-aware senders share one shape; these are its steps. *)
Ltac thumb_present Hreq t :=
  cbv zeta; rewrite (get_lookup _ _ _ Hreq);
  rewrite (proj2 (nonempty_length t)) by assumption; cbv iota;
  unfold doRequestWithFiles; rewrite call_issued;
  eexists; split; [reflexivity | apply lookup_delete_eq].

Ltac thumb_absent Hreq :=
  cbv zeta; rewrite (get_absent _ _ Hreq);
  change (0 <? String.length "")%nat with false; cbv iota;
  unfold doRequest; rewrite call_issued;
  eexists; split; [reflexivity | exact Hreq].

Lemma SendAnimation_thumb remote chatID fileID opts t w :
  apply_opts opts (Values.set "animation" fileID (Values.set "chat_id" chatID ∅))
    !! "thumb" = Some [t] ->
  t <> "" ->
  exists req : Values.t,
    issued (snd (SendAnimation remote chatID fileID opts w))
      = issued w ++
        [InvokeWithFiles "sendAnimation" (Some req)
           {| files_ := [{| field := "thumb"; name := t |}] |}]
    /\ req !! "thumb" = None.
Proof. intros Hreq Ht. unfold SendAnimation. thumb_present Hreq t. Qed.

Lemma SendAnimation_no_thumb remote chatID fileID opts w :
  apply_opts opts (Values.set "animation" fileID (Values.set "chat_id" chatID ∅))
    !! "thumb" = None ->
  exists req : Values.t,
    issued (snd (SendAnimation remote chatID fileID opts w))
      = issued w ++ [Invoke "sendAnimation" (Some req)]
    /\ req !! "thumb" = None.
Proof. intros Hreq. unfold SendAnimation. thumb_absent Hreq. Qed.

Lemma SendVideoNote_thumb remote chatID fileID opts t w :
  apply_opts opts (Values.set "video_note" fileID (Values.set "chat_id" chatID ∅))
    !! "thumb" = Some [t] ->
  t <> "" ->
  exists req : Values.t,
    issued (snd (SendVideoNote remote chatID fileID opts w))
      = issued w ++
        [InvokeWithFiles "sendVideoNote" (Some req)
           {| files_ := [{| field := "thumb"; name := t |}] |}]
    /\ req !! "thumb" = None.
Proof. intros Hreq Ht. unfold SendVideoNote. thumb_present Hreq t. Qed.

Lemma SendVideoNote_no_thumb remote chatID fileID opts w :
  apply_opts opts (Values.set "video_note" fileID (Values.set "chat_id" chatID ∅))
    !! "thumb" = None ->
  exists req : Values.t,
    issued (snd (SendVideoNote remote chatID fileID opts w))
      = issued w ++ [Invoke "sendVideoNote" (Some req)]
    /\ req !! "thumb" = None.
Proof. intros Hreq. unfold SendVideoNote. thumb_absent Hreq. Qed.

Lemma base_has_no_thumb key fileID chatID :
  key <> "thumb" ->
  (Values.set key fileID (Values.set "chat_id" chatID ∅) : Values.t)
    !! "thumb" = None.
Proof.
  intros Hne. unfold Values.set.
  rewrite lookup_insert_ne by done. by rewrite lookup_insert_ne.
Qed.

(** C8, as the code has it. For every chat and every option list: when the
    last option to write "thumb" writes a non-empty file name [t],
    [SendAnimation] and [SendVideoNote] issue a request whose parameter map
    has no "thumb" key and whose only attachment is the file [t] under the
    field "thumb"; when no option sets "thumb", the request is issued
    without attachments. *)
Theorem thumb_sent_as_attachment
    (remote : list Invocation -> Invocation -> Reply)
    (chatID fileID : string) (opts : list SendOption) (w : World) :
  (forall pre o post t,
      opts = pre ++ o :: post ->
      writes "thumb" t o ->
      Forall (keeps "thumb") post ->
      t <> "" ->
      (exists req : Values.t,
          issued (snd (SendAnimation remote chatID fileID opts w))
            = issued w ++
              [InvokeWithFiles "sendAnimation" (Some req)
                 {| files_ := [{| field := "thumb"; name := t |}] |}]
          /\ req !! "thumb" = None)
      /\ (exists req : Values.t,
          issued (snd (SendVideoNote remote chatID fileID opts w))
            = issued w ++
              [InvokeWithFiles "sendVideoNote" (Some req)
                 {| files_ := [{| field := "thumb"; name := t |}] |}]
          /\ req !! "thumb" = None))
  /\ (Forall (keeps "thumb") opts ->
      (exists req : Values.t,
          issued (snd (SendAnimation remote chatID fileID opts w))
            = issued w ++ [Invoke "sendAnimation" (Some req)]
          /\ req !! "thumb" = None)
      /\ (exists req : Values.t,
          issued (snd (SendVideoNote remote chatID fileID opts w))
            = issued w ++ [Invoke "sendVideoNote" (Some req)]
          /\ req !! "thumb" = None)).
Proof.
  split.
  - intros pre o post t -> Hw Hk Ht. split.
    + apply SendAnimation_thumb; [|exact Ht].
      by apply apply_opts_last_write.
    + apply SendVideoNote_thumb; [|exact Ht].
      by apply apply_opts_last_write.
  - intros Hk. split.
    + apply SendAnimation_no_thumb.
      rewrite (apply_opts_keeps _ _ Hk). by apply base_has_no_thumb.
    + apply SendVideoNote_no_thumb.
      rewrite (apply_opts_keeps _ _ Hk). by apply base_has_no_thumb.
Qed.

Lemma thumb_sent_as_attachment_witness :
  ((exists req : Values.t,
       issued (snd (SendAnimation always_ok "123" "anim"
                      [OptCaption "hi"; OptThumb "thumb.jpg"; OptDisableNotification]
                      fresh_world))
         = issued fresh_world ++
           [InvokeWithFiles "sendAnimation" (Some req)
              {| files_ := [{| field := "thumb"; name := "thumb.jpg" |}] |}]
       /\ req !! "thumb" = None)
   /\ (exists req : Values.t,
       issued (snd (SendVideoNote always_ok "123" "anim"
                      [OptCaption "hi"; OptThumb "thumb.jpg"; OptDisableNotification]
                      fresh_world))
         = issued fresh_world ++
           [InvokeWithFiles "sendVideoNote" (Some req)
              {| files_ := [{| field := "thumb"; name := "thumb.jpg" |}] |}]
       /\ req !! "thumb" = None))
  /\ ((exists req : Values.t,
       issued (snd (SendAnimation always_ok "123" "anim" [OptCaption "hi"]
                      fresh_world))
         = issued fresh_world ++ [Invoke "sendAnimation" (Some req)]
       /\ req !! "thumb" = None)
   /\ (exists req : Values.t,
       issued (snd (SendVideoNote always_ok "123" "anim" [OptCaption "hi"]
                      fresh_world))
         = issued fresh_world ++ [Invoke "sendVideoNote" (Some req)]
       /\ req !! "thumb" = None)).
Proof.
  split.
  - apply (proj1 (thumb_sent_as_attachment always_ok "123" "anim"
                    [OptCaption "hi"; OptThumb "thumb.jpg"; OptDisableNotification]
                    fresh_world)
             [OptCaption "hi"] (OptThumb "thumb.jpg") [OptDisableNotification]
             "thumb.jpg").
    + reflexivity.
    + apply set_writes.
    + constructor; [|constructor]. apply set_keeps. discriminate.
    + discriminate.
  - apply (proj2 (thumb_sent_as_attachment always_ok "123" "anim"
                    [OptCaption "hi"] fresh_world)).
    constructor; [|constructor]. apply set_keeps. discriminate.
Defined.

(** C8 as it is worded fails on an option that sets "thumb" to the empty
    string: the request keeps its "thumb" key and carries no attachment. *)
Lemma empty_thumb_counterexample :
  writes "thumb" "" (OptThumb "")
  /\ ~ (exists (req : Values.t) (fs : files),
          issued (snd (SendAnimation always_ok "123" "anim" [OptThumb ""]
                         fresh_world))
            = [InvokeWithFiles "sendAnimation" (Some req) fs]
          /\ req !! "thumb" = None)
  /\ (exists req : Values.t,
          issued (snd (SendAnimation always_ok "123" "anim" [OptThumb ""]
                         fresh_world))
            = [Invoke "sendAnimation" (Some req)]
          /\ req !! "thumb" = Some [""]).
Proof.
  split_and!.
  - apply set_writes.
  - intros (req & fs & H & _). discriminate H.
  - eexists. split; [reflexivity|]. apply lookup_insert_eq.
Qed.

(** ** [DownloadFile] *)

(** C9. For every [File] whose [FilePath] is empty, [DownloadFile] returns
    a nil reader and a non-nil error without performing any HTTP request;
    and for every HTTP response whose status code is not 200, it returns a
    nil reader and a non-nil error. *)
Theorem DownloadFile_fails
    (Do : list Request -> Request -> Response + error)
    (NewRequest : string -> string -> Request + error)
    (file : File) (w : World) :
  (FilePath file = "" ->
   exists e : error,
     DownloadFile Do NewRequest file w = ((None, Some e), w)
     /\ performed (snd (DownloadFile Do NewRequest file w)) = performed w)
  /\ (forall (r : Request) (resp : Response),
        NewRequest MethodGet
          (Sprintf (filesTrailURL (client w))
             [baseURL (client w); token (client w); FilePath file]) = inl r ->
        Do (performed w) r = inl resp ->
        StatusCode resp <> 200 ->
        exists e : error,
          fst (DownloadFile Do NewRequest file w) = (None, Some e)).
Proof.
  split.
  - intros Hpath. unfold DownloadFile.
    rewrite (proj2 (empty_length _) Hpath). by eexists.
  - intros r resp Hreq Hdo Hcode. unfold DownloadFile.
    destruct (String.length (FilePath file) =? 0)%nat; [by eexists|].
    unfold bind, self, httpDo, ret. simpl. rewrite Hreq. simpl.
    rewrite Hdo. unfold StatusOK.
    destruct (Z.eqb_spec (StatusCode resp) 200) as [Heq|_]; [done|].
    simpl. by eexists.
Qed.

Lemma DownloadFile_fails_witness :
  (exists e : error,
      DownloadFile not_found plain_request
        {| FileID := "f1"; FileSize := 0; FilePath := "" |} fresh_world
      = ((None, Some e), fresh_world)
      /\ performed (snd (DownloadFile not_found plain_request
                           {| FileID := "f1"; FileSize := 0; FilePath := "" |}
                           fresh_world))
         = performed fresh_world)
  /\ (exists e : error,
      fst (DownloadFile not_found plain_request
             {| FileID := "f1"; FileSize := 10; FilePath := "photos/a.jpg" |}
             fresh_world)
      = (None, Some e)).
Proof.
  split.
  - apply (proj1 (DownloadFile_fails not_found plain_request
                    {| FileID := "f1"; FileSize := 0; FilePath := "" |}
                    fresh_world)).
    reflexivity.
  - apply (proj2 (DownloadFile_fails not_found plain_request
                    {| FileID := "f1"; FileSize := 10; FilePath := "photos/a.jpg" |}
                    fresh_world)
             {| Method := "GET";
                URL := "https://example.com/file/botTOKEN/photos/a.jpg" |}
             {| StatusCode := 404; Body := inl "" |}).
    + reflexivity.
    + reflexivity.
    + discriminate.
Defined.

(** ** Handler Registry: the Route Match *)

Lemma find_first {A} (f : A -> bool) (l : list A) (x : A) :
  List.find f l = Some x ->
  exists l1 l2, l = l1 ++ x :: l2 /\ f x = true
                /\ forall y, In y l1 -> f y = false.
Proof.
  induction l as [|a l IH]; simpl; [discriminate|].
  destruct (f a) eqn:Hfa.
  - intros [= ->]. exists [], l. split_and!; [reflexivity|exact Hfa|].
    intros y [].
  - intros Hfind. destruct (IH Hfind) as (l1 & l2 & -> & Hx & Hl1).
    exists (a :: l1), l2. split_and!; [reflexivity|exact Hx|].
    intros y [<-|Hy]; [exact Hfa|by apply Hl1].
Qed.

Lemma in_tier_true n u e :
  in_tier n u e = true <-> tier (pattern e) = n /\ matches (pattern e) u = true.
Proof.
  unfold in_tier. rewrite andb_true_iff, Nat.eqb_eq. reflexivity.
Qed.

Lemma in_tier_false n u e :
  in_tier n u e = false -> matches (pattern e) u = true -> tier (pattern e) <> n.
Proof.
  intros Hf Hm Ht. assert (in_tier n u e = true) by (by apply in_tier_true).
  congruence.
Qed.

Lemma tier_bound p : (tier p <= 2)%nat.
Proof. destruct p; simpl; lia. Qed.

Lemma Match_first_of_its_tier r u e :
  Match r u = Some e ->
  exists before after,
    r = before ++ e :: after
    /\ matches (pattern e) u = true
    /\ (forall e', In e' r -> matches (pattern e') u = true ->
                   (tier (pattern e) <= tier (pattern e'))%nat)
    /\ (forall e', In e' before -> matches (pattern e') u = true ->
                   (tier (pattern e) < tier (pattern e'))%nat).
Proof.
  unfold Match.
  destruct (List.find (in_tier 0 u) r) as [e0|] eqn:H0.
  { intros [= ->]. destruct (find_first _ _ _ H0) as (l1 & l2 & -> & He & Hl1).
    apply in_tier_true in He as [Ht Hm]. exists l1, l2. split_and!; try done.
    - intros e' _ _. lia.
    - intros e' Hin Hm'. pose proof (in_tier_false _ _ _ (Hl1 e' Hin) Hm'). lia. }
  destruct (List.find (in_tier 1 u) r) as [e1|] eqn:H1.
  { intros [= ->]. destruct (find_first _ _ _ H1) as (l1 & l2 & Hr & He & Hl1).
    apply in_tier_true in He as [Ht Hm]. exists l1, l2. split_and!; try done.
    - intros e' Hin Hm'.
      pose proof (in_tier_false _ _ _ (find_none _ _ H0 e' Hin) Hm'). lia.
    - intros e' Hin Hm'.
      assert (In e' r) as Hin' by (rewrite Hr; apply in_or_app; by left).
      pose proof (in_tier_false _ _ _ (find_none _ _ H0 e' Hin') Hm').
      pose proof (in_tier_false _ _ _ (Hl1 e' Hin) Hm'). lia. }
  intros H2. destruct (find_first _ _ _ H2) as (l1 & l2 & Hr & He & Hl1).
  apply in_tier_true in He as [Ht Hm]. exists l1, l2. split_and!; try done.
  - intros e' Hin Hm'.
    pose proof (in_tier_false _ _ _ (find_none _ _ H0 e' Hin) Hm').
    pose proof (in_tier_false _ _ _ (find_none _ _ H1 e' Hin) Hm').
    pose proof (tier_bound (pattern e')). lia.
  - intros e' Hin Hm'.
    assert (In e' r) as Hin' by (rewrite Hr; apply in_or_app; by left).
    pose proof (in_tier_false _ _ _ (find_none _ _ H0 e' Hin') Hm').
    pose proof (in_tier_false _ _ _ (find_none _ _ H1 e' Hin') Hm').
    pose proof (in_tier_false _ _ _ (Hl1 e' Hin) Hm').
    pose proof (tier_bound (pattern e')). lia.
Qed.

Lemma Match_none r u :
  Match r u = None <-> forall e, In e r -> matches (pattern e) u = false.
Proof.
  split.
  - unfold Match.
    destruct (List.find (in_tier 0 u) r) eqn:H0; [discriminate|].
    destruct (List.find (in_tier 1 u) r) eqn:H1; [discriminate|].
    intros H2 e Hin. destruct (matches (pattern e) u) eqn:Hm; [|reflexivity].
    pose proof (in_tier_false _ _ _ (find_none _ _ H0 e Hin) Hm).
    pose proof (in_tier_false _ _ _ (find_none _ _ H1 e Hin) Hm).
    pose proof (in_tier_false _ _ _ (find_none _ _ H2 e Hin) Hm).
    pose proof (tier_bound (pattern e)). lia.
  - intros Hall. destruct (Match r u) as [e|] eqn:HM; [|reflexivity].
    destruct (Match_first_of_its_tier _ _ _ HM) as (l1 & l2 & -> & Hm & _).
    rewrite Hall in Hm; [discriminate|]. apply in_or_app. right. by left.
Qed.

Lemma invocations_dispatch reg u :
  invocations (dispatch reg u) =
  match Match reg u with Some e => [(e, u)] | None => [] end.
Proof.
  unfold dispatch. destruct (Match reg u) as [e|]; [|reflexivity].
  by destruct (callback e u).
Qed.

(** C5. For every Update, [Match] returns zero or one handler, chosen by
    specificity order (exact command match before prefix match before
    catch-all predicate), the first registered entry winning inside a tier;
    with handlers registered for "/start" and a catch-all predicate, the
    message "/start" invokes only the "/start" handler and the message
    "hello" invokes only the catch-all. *)
Theorem Match_by_specificity (r : Registry) (u : Update) :
  (Match r u = None <-> forall e, In e r -> matches (pattern e) u = false)
  /\ (forall e, Match r u = Some e ->
        exists before after,
          r = before ++ e :: after
          /\ matches (pattern e) u = true
          /\ (forall e', In e' r -> matches (pattern e') u = true ->
                (tier (pattern e) <= tier (pattern e'))%nat)
          /\ (forall e', In e' before -> matches (pattern e') u = true ->
                (tier (pattern e) < tier (pattern e'))%nat))
  /\ (forall (on_start on_any : Update -> Outcome) (id : Z),
        let start := {| pattern := Exact "/start"; callback := on_start |} in
        let any := {| pattern := Predicate (fun _ => true); callback := on_any |} in
        let hi := {| UpdateID := id; payload := Message "/start" |} in
        let hello := {| UpdateID := id; payload := Message "hello" |} in
        invocations (dispatch [start; any] hi) = [(start, hi)]
        /\ invocations (dispatch [any; start] hi) = [(start, hi)]
        /\ invocations (dispatch [start; any] hello) = [(any, hello)]
        /\ invocations (dispatch [any; start] hello) = [(any, hello)]).
Proof.
  split_and!.
  - apply Match_none.
  - intros e. apply Match_first_of_its_tier.
  - intros on_start on_any id. cbv zeta.
    rewrite !invocations_dispatch. by split_and!.
Qed.

Lemma Match_by_specificity_witness :
  exists before after,
    [catch_all; help_prefix; start_entry; start_entry]
      = before ++ start_entry :: after
    /\ matches (pattern start_entry) (msg 7 "/start@tbot now") = true
    /\ (forall e', In e' [catch_all; help_prefix; start_entry; start_entry] ->
          matches (pattern e') (msg 7 "/start@tbot now") = true ->
          (tier (pattern start_entry) <= tier (pattern e'))%nat)
    /\ (forall e', In e' before ->
          matches (pattern e') (msg 7 "/start@tbot now") = true ->
          (tier (pattern start_entry) < tier (pattern e'))%nat).
Proof.
  apply (proj1 (proj2 (Match_by_specificity
                         [catch_all; help_prefix; start_entry; start_entry]
                         (msg 7 "/start@tbot now")))
           start_entry).
  reflexivity.
Defined.

(** ** Poller: the order of a batch *)

Lemma insert_by_id_Permutation u l : Permutation (insert_by_id u l) (u :: l).
Proof.
  induction l as [|v l IH]; simpl; [reflexivity|].
  destruct (UpdateID u <=? UpdateID v); [reflexivity|].
  rewrite IH. apply perm_swap.
Qed.

Lemma ascending_Permutation us : Permutation (ascending us) us.
Proof.
  induction us as [|u us IH]; simpl; [reflexivity|].
  rewrite insert_by_id_Permutation. by constructor.
Qed.

Lemma insert_by_id_sorted u l :
  StronglySorted le_id l -> StronglySorted le_id (insert_by_id u l).
Proof.
  induction 1 as [|v l Hs IH Hv]; simpl.
  - constructor; constructor.
  - destruct (Z.leb_spec (UpdateID u) (UpdateID v)) as [Hle|Hgt].
    + constructor; [by constructor|].
      constructor; [exact Hle|].
      eapply Forall_impl; [exact Hv|].
      intros w Hw. unfold le_id in *. lia.
    + constructor; [exact IH|].
      rewrite insert_by_id_Permutation.
      constructor; [unfold le_id; lia|exact Hv].
Qed.

Lemma ascending_sorted us : StronglySorted le_id (ascending us).
Proof.
  induction us as [|u us IH]; simpl; [constructor|].
  by apply insert_by_id_sorted.
Qed.

Lemma sorted_lookup_le (l : list Update) (i j : nat) (x y : Update) :
  StronglySorted le_id l ->
  l !! i = Some x -> l !! j = Some y -> (i < j)%nat -> le_id x y.
Proof.
  intros Hs. revert i j. induction Hs as [|a l Hs IH Ha]; intros i j Hi Hj Hlt.
  - by rewrite lookup_nil in Hi.
  - destruct j as [|j]; [lia|]. simpl in Hj. destruct i as [|i].
    + simpl in Hi. injection Hi as <-.
      rewrite Forall_forall in Ha. apply Ha.
      by eapply list_elem_of_lookup_2.
    + simpl in Hi. apply (IH i j); [done|done|lia].
Qed.

(** In a batch put in ascending order, the smaller [UpdateID] comes first. *)
Lemma ascending_smaller_first us (i j : nat) (u1 u2 : Update) :
  ascending us !! i = Some u1 -> ascending us !! j = Some u2 ->
  UpdateID u1 < UpdateID u2 -> (i < j)%nat.
Proof.
  intros Hi Hj Hlt.
  destruct (Nat.lt_trichotomy i j) as [H|[H|H]]; [exact H| |].
  - subst j. rewrite Hi in Hj. injection Hj as <-. lia.
  - pose proof (sorted_lookup_le _ _ _ _ _ (ascending_sorted us) Hj Hi H) as Hle.
    unfold le_id in Hle. lia.
Qed.



Lemma max_UpdateID_none us : max_UpdateID us = None <-> us = [].
Proof. destruct us; simpl; split; intros H; done. Qed.

Lemma handoffs_app a b : handoffs (a ++ b) = handoffs a ++ handoffs b.
Proof. unfold handoffs. apply flat_map_app. Qed.

Lemma handoffs_dispatch reg u : handoffs (dispatch reg u) = [].
Proof.
  unfold dispatch. destruct (Match reg u) as [e|]; [|reflexivity].
  by destruct (callback e u).
Qed.

Lemma handoffs_handed reg us :
  handoffs (flat_map (fun u => Handoff u :: dispatch reg u) us) = us.
Proof.
  induction us as [|u us IH]; [reflexivity|].
  simpl flat_map. change (Handoff u :: dispatch reg u ++ ?l)
    with ([Handoff u] ++ (dispatch reg u ++ l)).
  rewrite !handoffs_app, handoffs_dispatch, IH. reflexivity.
Qed.

(** ** Poller: one round of the loop *)

Section PollerFacts.

Variable remote : list Invocation -> Invocation -> Reply.
Variable is_fatal : error -> bool.
Variable ceiling : nat.

Local Abbreviation poll := (poll_once remote is_fatal ceiling).



Lemma poll_batch en us m :
  fst (fetch remote en) = inl us ->
  max_UpdateID us = Some m ->
  poll en =
  {| world := with_cursor (m + 1) (snd (fetch remote en));
     registry := registry en; polling := polling en; webhook := webhook en;
     trace := trace en
              ++ flat_map (fun u => Handoff u :: dispatch (registry en) u)
                   (ascending us)
              ++ [Advanced (m + 1)];
     delay := 0; strikes := 0; fatal := fatal en |}.
Proof.
  intros Hf Hm. unfold poll_once.
  destruct (fetch remote en) as [r w]. simpl in Hf. subst r.
  by rewrite Hm.
Qed.

Lemma poll_empty en :
  fst (fetch remote en) = inl [] ->
  poll en =
  {| world := snd (fetch remote en);
     registry := registry en; polling := polling en; webhook := webhook en;
     trace := trace en; delay := 0; strikes := 0; fatal := fatal en |}.
Proof.
  intros Hf. unfold poll_once.
  destruct (fetch remote en) as [r w]. simpl in Hf. subst r. simpl.
  by rewrite app_nil_r.
Qed.




Lemma poll_keeps_sources en :
  (active_sources (poll en) <= active_sources en)%nat.
Proof.
  unfold poll_once, active_sources.
  destruct (fetch remote en) as [[us|e] w].
  - destruct (max_UpdateID us); simpl; lia.
  - simpl. repeat case_match; simpl; lia.
Qed.

End PollerFacts.



(** C2. For every batch of N >= 0 updates of one [getUpdates], the Poller
    hands the updates to the Dispatcher one at a time and in ascending
    [UpdateID] order: an update with a smaller [UpdateID] is handed over
    before any update of the batch with a larger one, and the dispatch of
    each update is over before the next one is handed over. *)
Theorem batch_handed_in_ascending_order
    (remote : list Invocation -> Invocation -> Reply)
    (is_fatal : error -> bool) (ceiling : nat)
    (en : Engine) (us : list Update) :
  fst (fetch remote en) = inl us ->
  let en' := poll_once remote is_fatal ceiling en in
  handoffs (trace en') = handoffs (trace en) ++ ascending us
  /\ Permutation (ascending us) us
  /\ (forall (i j : nat) (u1 u2 : Update),
        ascending us !! i = Some u1 -> ascending us !! j = Some u2 ->
        UpdateID u1 < UpdateID u2 -> (i < j)%nat)
  /\ (exists tail,
        trace en' = trace en
                    ++ flat_map (fun u => Handoff u :: dispatch (registry en) u)
                         (ascending us)
                    ++ tail
        /\ handoffs tail = [] /\ invocations tail = []).
Proof.
  intros Hf. cbv zeta.
  assert (exists tail,
             trace (poll_once remote is_fatal ceiling en)
             = trace en
               ++ flat_map (fun u => Handoff u :: dispatch (registry en) u)
                    (ascending us)
               ++ tail
             /\ handoffs tail = [] /\ invocations tail = []) as Htrace.
  { destruct (max_UpdateID us) as [m|] eqn:Hm.
    - rewrite (poll_batch remote is_fatal ceiling en us m Hf Hm). simpl.
      by exists [Advanced (m + 1)].
    - apply max_UpdateID_none in Hm. subst us.
      rewrite (poll_empty remote is_fatal ceiling en Hf). simpl.
      exists []. by rewrite app_nil_r. }
  split_and!.
  - destruct Htrace as (tail & -> & Htail & _).
    by rewrite !handoffs_app, handoffs_handed, Htail, app_nil_r.
  - apply ascending_Permutation.
  - apply ascending_smaller_first.
  - exact Htrace.
Qed.

Lemma batch_handed_in_ascending_order_witness :
  handoffs (trace (poll_once (simulated backlog) unauthorized 60 (started table)))
    = handoffs (trace (started table))
      ++ ascending [msg 12 "/start"; msg 10 "/fail"; msg 11 "hello"]
  /\ ascending [msg 12 "/start"; msg 10 "/fail"; msg 11 "hello"]
     = [msg 10 "/fail"; msg 11 "hello"; msg 12 "/start"].
Proof.
  split; [|reflexivity].
  apply (batch_handed_in_ascending_order (simulated backlog) unauthorized 60
           (started table) [msg 12 "/start"; msg 10 "/fail"; msg 11 "hello"]).
  vm_compute. reflexivity.
Defined.






(** ** Mutual exclusion of the Update Sources *)

Lemma Start_refused en hook :
  webhook en = Some hook -> exists e, Start en = (Some e, en).
Proof. intros H. unfold Start. rewrite H. by eexists. Qed.

Lemma Register_refused remote u en :
  polling en = true -> exists e, Register remote u en = (Some e, en).
Proof. intros H. unfold Register. rewrite H. by eexists. Qed.

Lemma step_keeps_exclusive remote is_fatal ceiling en op :
  (active_sources en <= 1)%nat ->
  (active_sources (step remote is_fatal ceiling en op) <= 1)%nat.
Proof.
  intros H. destruct op as [| | |u|]; simpl.
  - unfold Start, active_sources in *.
    destruct (webhook en) eqn:Hw; simpl; rewrite ?Hw; lia.
  - unfold Stop, active_sources in *. simpl. destruct (polling en); lia.
  - destruct (polling en) eqn:Hp; [|exact H].
    pose proof (poll_keeps_sources remote is_fatal ceiling en). lia.
  - unfold Register, active_sources in *.
    destruct (polling en) eqn:Hp; simpl; rewrite ?Hp; [exact H|].
    destruct (setWebhook remote u (world en)) as [r w]. simpl. rewrite ?Hp.
    repeat case_match; lia.
  - unfold Unregister, active_sources in *.
    destruct (deleteWebhook remote (world en)) as [r w]. simpl.
    repeat case_match; simplify_eq; lia.
Qed.

Lemma exec_keeps_exclusive remote is_fatal ceiling ops en :
  (active_sources en <= 1)%nat ->
  (active_sources (exec remote is_fatal ceiling ops en) <= 1)%nat.
Proof.
  revert en. induction ops as [|op ops IH]; intros en H; [exact H|].
  simpl. apply IH. by apply step_keeps_exclusive.
Qed.

(** C3. Starting the Poller while a webhook is registered with the remote
    service returns an error without beginning the polling loop;
    registering the Webhook Receiver while a Poller is active returns an
    error; and whatever is done to the engine, at most one Update Source
    is active. *)
Theorem update_sources_exclusive
    (remote : list Invocation -> Invocation -> Reply)
    (is_fatal : error -> bool) (ceiling : nat) :
  (forall en hook,
      webhook en = Some hook ->
      exists e, Start en = (Some e, en))
  /\ (forall en u,
      polling en = true ->
      exists e, Register remote u en = (Some e, en))
  /\ (forall ops en,
      (active_sources en <= 1)%nat ->
      (active_sources (exec remote is_fatal ceiling ops en) <= 1)%nat)
  /\ (forall ops c reg,
      (active_sources (exec remote is_fatal ceiling ops (new_engine c reg)) <= 1)%nat).
Proof.
  split_and!.
  - apply Start_refused.
  - intros en u. apply Register_refused.
  - apply exec_keeps_exclusive.
  - intros ops c reg. apply exec_keeps_exclusive. unfold active_sources. simpl. lia.
Qed.

Lemma update_sources_exclusive_witness :
  let hooked :=
    snd (Register always_ok "https://bot.example.com/hook"
           (new_engine (NewClient "TOKEN" "https://example.com") table)) in
  (exists e, Start hooked = (Some e, hooked))
  /\ (exists e,
        Register always_ok "https://bot.example.com/hook" (started table)
        = (Some e, started table))
  /\ (active_sources
        (exec always_ok unauthorized 60
           [DoStart; DoPoll; DoRegister "https://bot.example.com/hook"; DoStop;
            DoRegister "https://bot.example.com/hook"; DoStart]
           hooked) <= 1)%nat.
Proof.
  pose proof (update_sources_exclusive always_ok unauthorized 60)
    as (Hstart & Hreg & Hexec & _).
  cbv zeta. split; [|split].
  - apply (Hstart _ "https://bot.example.com/hook"). reflexivity.
  - apply Hreg. reflexivity.
  - apply Hexec. vm_compute. lia.
Defined.

(** * Further properties of [client.go] *)

(** ** Options as single writes *)

Lemma apply_setters_snoc kvs kv (r : Values.t) :
  apply_opts (map setter (kvs ++ [kv])) r
  = Values.set (fst kv) (snd kv) (apply_opts (map setter kvs) r).
Proof. by rewrite map_app, apply_opts_app. Qed.

Lemma written_snoc k kvs kv :
  written k (kvs ++ [kv])
  = if decide (fst kv = k) then Some (snd kv) else written k kvs.
Proof. unfold written. by rewrite fold_left_app. Qed.

(** What a list of single writes leaves under a key. *)
Lemma apply_setters_lookup kvs (r : Values.t) k :
  apply_opts (map setter kvs) r !! k
  = match written k kvs with
    | Some v => Some [v]
    | None => r !! k
    end.
Proof.
  induction kvs as [|kv kvs IH] using rev_ind; [reflexivity|].
  rewrite apply_setters_snoc, written_snoc. unfold Values.set.
  destruct (decide (fst kv = k)) as [<-|Hne].
  - apply lookup_insert_eq.
  - by rewrite lookup_insert_ne.
Qed.

Lemma written_app k a b :
  written k (a ++ b)
  = match written k b with
    | Some v => Some v
    | None => written k a
    end.
Proof.
  induction b as [|kv b IH] using rev_ind.
  - by rewrite app_nil_r.
  - rewrite app_assoc, !written_snoc. by destruct (decide (fst kv = k)).
Qed.

Lemma apply_setters_Permutation kvs kvs' (r : Values.t) :
  Permutation kvs kvs' ->
  NoDup (map fst kvs) ->
  apply_opts (map setter kvs) r = apply_opts (map setter kvs') r.
Proof.
  intros Hp. revert r.
  induction Hp as [|x l l' Hp IH|x y l|l l' l'' Hp1 IH1 Hp2 IH2]; intros r Hnd.
  - reflexivity.
  - cbn [map]. rewrite !apply_opts_cons. apply IH.
    cbn [map] in Hnd. by apply NoDup_cons in Hnd as [_ Hnd].
  - cbn [map]. rewrite !apply_opts_cons. f_equal.
    unfold setter, Values.set. apply insert_insert_ne.
    cbn [map] in Hnd. apply NoDup_cons in Hnd as [Hnotin _].
    intros Heq. apply Hnotin. rewrite Heq. by left.
  - rewrite IH1 by done. apply IH2.
    by rewrite <- (Permutation_map fst Hp1).
Qed.

(** X1. Options that write pairwise distinct keys commute: [SendMessage]
    called with the same single-write options in any order issues the same
    request and returns the same result, and so does the option loop of
    any method, whatever its required parameters. *)
Theorem options_on_distinct_keys_commute
    (remote : list Invocation -> Invocation -> Reply)
    (chatID text : string) (kvs kvs' : list (string * string)) (w : World) :
  Permutation kvs kvs' ->
  NoDup (map fst kvs) ->
  (forall required : Values.t,
      apply_opts (map setter kvs) required = apply_opts (map setter kvs') required)
  /\ SendMessage remote chatID text (map setter kvs) w
     = SendMessage remote chatID text (map setter kvs') w.
Proof.
  intros Hp Hnd. split.
  - intros required. by apply apply_setters_Permutation.
  - unfold SendMessage. cbv zeta.
    by rewrite (apply_setters_Permutation kvs kvs' _ Hp Hnd).
Qed.

Lemma options_on_distinct_keys_commute_witness :
  SendMessage always_ok "123" "helo"
    [OptParseModeHTML; OptDisableNotification; OptDisableWebPagePreview]
    fresh_world
  = SendMessage always_ok "123" "helo"
      [OptDisableWebPagePreview; OptParseModeHTML; OptDisableNotification]
      fresh_world.
Proof.
  apply (fun Hp Hnd =>
           proj2 (options_on_distinct_keys_commute always_ok "123" "helo"
                    [("parse_mode", "HTML"); ("disable_notification", "true");
                     ("disable_web_page_preview", "true")]
                    [("disable_web_page_preview", "true"); ("parse_mode", "HTML");
                     ("disable_notification", "true")]
                    fresh_world Hp Hnd)).
  - apply Permutation_sym. apply (Permutation_cons_app [_; _] []). reflexivity.
  - apply (bool_decide_unpack _). vm_compute. reflexivity.
Defined.

(** X2. Giving a list of single-write options twice is the same as giving
    it once: the option loop is idempotent on such a list, from any map of
    required parameters, and [SendMessage] issues the same request. *)
Theorem repeated_options_idempotent
    (remote : list Invocation -> Invocation -> Reply)
    (chatID text : string) (kvs : list (string * string)) (w : World) :
  (forall required : Values.t,
      apply_opts (map setter kvs ++ map setter kvs) required
      = apply_opts (map setter kvs) required)
  /\ SendMessage remote chatID text (map setter kvs ++ map setter kvs) w
     = SendMessage remote chatID text (map setter kvs) w.
Proof.
  assert (forall required : Values.t,
             apply_opts (map setter kvs ++ map setter kvs) required
             = apply_opts (map setter kvs) required) as Hidem.
  { intros required. rewrite <- map_app. apply map_eq. intros k.
    rewrite !apply_setters_lookup, written_app.
    by destruct (written k kvs). }
  split; [exact Hidem|].
  unfold SendMessage. cbv zeta. by rewrite Hidem.
Qed.

(** ** [DownloadFile], further *)

Lemma append_empty_r (s : string) : s +:+ "" = s.
Proof.
  induction s as [|a s IH]; [reflexivity|].
  change (String a (s +:+ "") = String a s). by rewrite IH.
Qed.

Lemma file_url tok base path :
  Sprintf (filesTrailURL (NewClient tok base))
    [baseURL (NewClient tok base); token (NewClient tok base); path]
  = base +:+ "/file/bot" +:+ tok +:+ "/" +:+ path.
Proof. simpl. by rewrite append_empty_r. Qed.

Lemma DownloadFile_on_client Do NewRequest file w :
  DownloadFile_on (Some Do) NewRequest file w
  = (inl (fst (DownloadFile Do NewRequest file w)),
     snd (DownloadFile Do NewRequest file w)).
Proof.
  unfold DownloadFile_on, DownloadFile.
  destruct (String.length (FilePath file) =? 0)%nat; [reflexivity|].
  unfold bind, self, httpDo, ret. cbn [fst snd client performed].
  destruct (NewRequest _ _) as [r|e]; [|reflexivity].
  destruct (Do _ r) as [resp|e]; [|reflexivity].
  destruct (negb _); [reflexivity|].
  by destruct (Body resp).
Qed.

(** X3. Whatever the file, the [httpClient] and what it answers,
    [DownloadFile] ends in one of three ways: a reader and no error; an
    error and no reader; or, only when the [httpClient] is nil, the path is
    not empty and the request could be built, a panic on the nil client,
    with nothing done. With a non-nil [httpClient] it does not panic and
    is [DownloadFile] as modelled above. In every case it calls
    [httpClient.Do] at most once, issues no Bot API call and leaves the
    client as it was. *)
Theorem DownloadFile_reader_xor_error
    (httpClient : option (list Request -> Request -> Response + error))
    (NewRequest : string -> string -> Request + error)
    (file : File) (w : World) :
  let res := DownloadFile_on httpClient NewRequest file w in
  ((exists body, fst res = inl (Some body, None))
   \/ (exists e, fst res = inl (None, Some e))
   \/ (fst res = inr NilDereference
       /\ httpClient = None
       /\ FilePath file <> ""
       /\ (exists r,
             NewRequest MethodGet
               (Sprintf (filesTrailURL (client w))
                  [baseURL (client w); token (client w); FilePath file]) = inl r)
       /\ snd res = w))
  /\ (forall Do,
        httpClient = Some Do ->
        fst res <> inr NilDereference
        /\ res = (inl (fst (DownloadFile Do NewRequest file w)),
                  snd (DownloadFile Do NewRequest file w)))
  /\ client (snd res) = client w
  /\ issued (snd res) = issued w
  /\ (performed (snd res) = performed w
      \/ exists Do r,
           httpClient = Some Do /\ performed (snd res) = performed w ++ [r]).
Proof.
  cbv zeta. split_and!.
  - unfold DownloadFile_on.
    destruct (String.length (FilePath file) =? 0)%nat eqn:Hlen.
    { right. left. by eexists. }
    assert (FilePath file <> "") as Hpath.
    { intros Heq. apply empty_length in Heq. congruence. }
    unfold bind, self, httpDo, ret. cbn [fst snd client performed].
    destruct (NewRequest _ _) as [r|e] eqn:Hreq.
    2: { right. left. by eexists. }
    destruct httpClient as [Do|].
    2: { right. right. split_and!; try done. by exists r. }
    destruct (Do _ r) as [resp|e].
    2: { right. left. by eexists. }
    destruct (negb _).
    { right. left. by eexists. }
    destruct (Body resp) as [body|e].
    + left. by eexists.
    + right. left. by eexists.
  - intros Do ->. rewrite DownloadFile_on_client. split; [discriminate|reflexivity].
  - unfold DownloadFile_on.
    destruct (String.length (FilePath file) =? 0)%nat; [reflexivity|].
    unfold bind, self, httpDo, ret. cbn [fst snd client performed].
    destruct (NewRequest _ _) as [r|e]; [|reflexivity].
    destruct httpClient as [Do|]; [|reflexivity].
    destruct (Do _ r) as [resp|e]; [|reflexivity].
    destruct (negb _); [reflexivity|]. by destruct (Body resp).
  - unfold DownloadFile_on.
    destruct (String.length (FilePath file) =? 0)%nat; [reflexivity|].
    unfold bind, self, httpDo, ret. cbn [fst snd client performed].
    destruct (NewRequest _ _) as [r|e]; [|reflexivity].
    destruct httpClient as [Do|]; [|reflexivity].
    destruct (Do _ r) as [resp|e]; [|reflexivity].
    destruct (negb _); [reflexivity|]. by destruct (Body resp).
  - unfold DownloadFile_on.
    destruct (String.length (FilePath file) =? 0)%nat; [by left|].
    unfold bind, self, httpDo, ret. cbn [fst snd client performed].
    destruct (NewRequest _ _) as [r|e]; [|by left].
    destruct httpClient as [Do|]; [|by left].
    right. exists Do, r. split; [reflexivity|].
    destruct (Do _ r) as [resp|e]; [|reflexivity].
    destruct (negb _); [reflexivity|]. by destruct (Body resp).
Qed.

Lemma DownloadFile_reader_xor_error_witness :
  fst (DownloadFile_on (Some not_found) plain_request
         {| FileID := "f1"; FileSize := 4; FilePath := "photos/a.jpg" |}
         fresh_world)
    <> inr NilDereference
  /\ fst (DownloadFile_on None plain_request
            {| FileID := "f1"; FileSize := 4; FilePath := "photos/a.jpg" |}
            fresh_world)
     = inr NilDereference.
Proof.
  split.
  - apply (proj1 (proj2 (DownloadFile_reader_xor_error (Some not_found)
                           plain_request
                           {| FileID := "f1"; FileSize := 4;
                              FilePath := "photos/a.jpg" |}
                           fresh_world))
             not_found).
    reflexivity.
  - reflexivity.
Defined.

(** X4. For a client made by [NewClient] from a token, a base URL and a
    non-nil [httpClient], and a file with a non-empty path, [DownloadFile]
    asks [http.NewRequest] for a GET of the string
    [<baseURL>/file/bot<token>/<FilePath>]; when that request is built and
    the [httpClient] answers it with status 200 and a readable body,
    [DownloadFile] returns that body and no error, having called
    [httpClient.Do] exactly once, on that request. *)
Theorem DownloadFile_fetches_file_url
    (Do : list Request -> Request -> Response + error)
    (NewRequest : string -> string -> Request + error)
    (tok base : string) (file : File) (calls : list Invocation)
    (before : list Request) (r : Request) (resp : Response) (body : string) :
  FilePath file <> "" ->
  NewRequest "GET" (base +:+ "/file/bot" +:+ tok +:+ "/" +:+ FilePath file) = inl r ->
  Do before r = inl resp ->
  StatusCode resp = 200 ->
  Body resp = inl body ->
  DownloadFile_on (Some Do) NewRequest file
    {| client := NewClient tok base; issued := calls; performed := before |}
  = (inl (Some body, None),
     {| client := NewClient tok base; issued := calls;
        performed := before ++ [r] |}).
Proof.
  intros Hpath Hreq Hdo Hcode Hbody. unfold DownloadFile_on.
  destruct (String.length (FilePath file) =? 0)%nat eqn:Hlen.
  { apply empty_length in Hlen. done. }
  unfold bind, self, httpDo, ret. cbn [client performed issued].
  rewrite file_url. unfold MethodGet. rewrite Hreq. cbn [performed].
  rewrite Hdo, Hcode, Hbody. reflexivity.
Qed.

Lemma DownloadFile_fetches_file_url_witness :
  DownloadFile_on (Some (ok_response "JPEG")) plain_request
    {| FileID := "f1"; FileSize := 4; FilePath := "photos/a.jpg" |} fresh_world
  = (inl (Some "JPEG", None),
     {| client := NewClient "TOKEN" "https://example.com"; issued := [];
        performed := [{| Method := "GET";
                         URL := "https://example.com/file/botTOKEN/photos/a.jpg" |}] |}).
Proof.
  apply (DownloadFile_fetches_file_url (ok_response "JPEG") plain_request
           "TOKEN" "https://example.com"
           {| FileID := "f1"; FileSize := 4; FilePath := "photos/a.jpg" |}
           [] []
           {| Method := "GET";
              URL := "https://example.com/file/botTOKEN/photos/a.jpg" |}
           {| StatusCode := 200; Body := inl "JPEG" |} "JPEG").
  - discriminate.
  - reflexivity.
  - reflexivity.
  - reflexivity.
  - reflexivity.
Defined.



(** ** Request builders, further *)

Lemma untouched_keeps keys opts k :
  untouched keys opts -> In k keys -> Forall (keeps k) opts.
Proof.
  intros Hu Hin. eapply Forall_impl; [exact Hu|].
  intros o Ho. by apply Ho.
Qed.

Lemma untouched_lookup keys opts k (r : Values.t) :
  untouched keys opts -> In k keys -> apply_opts opts r !! k = r !! k.
Proof. intros Hu Hin. apply apply_opts_keeps. by eapply untouched_keeps. Qed.

(** The entry of a literal key in a map built by a chain of [Set]s. *)
Ltac lookup_sets :=
  unfold Values.set, Values.del;
  repeat first
    [ rewrite lookup_insert_eq
    | rewrite lookup_insert_ne by done
    | rewrite lookup_delete_eq
    | rewrite lookup_delete_ne by done
    | rewrite lookup_empty ];
  try reflexivity.

(** The entry of a key the options leave alone, in a built request. *)
Ltac lookup_built Hu :=
  rewrite (untouched_lookup _ _ _ _ Hu) by (simpl; tauto); lookup_sets.

Ltac one_call :=
  unfold doRequest, doRequestWithFiles; cbv zeta; rewrite call_issued.

(** The thumb test of the four thumb-aware senders, decided. *)
Lemma thumb_test_absent (req : Values.t) :
  req !! "thumb" = None ->
  (0 <? String.length (Values.get "thumb" req))%nat = false.
Proof. intros H. by rewrite (get_absent _ _ H). Qed.

Lemma thumb_test_empty (req : Values.t) :
  req !! "thumb" = Some [""] ->
  (0 <? String.length (Values.get "thumb" req))%nat = false.
Proof. intros H. by rewrite (get_lookup _ _ _ H). Qed.

Lemma thumb_test_present (req : Values.t) t :
  req !! "thumb" = Some [t] -> t <> "" ->
  (0 <? String.length (Values.get "thumb" req))%nat = true
  /\ Values.get "thumb" req = t.
Proof.
  intros H Ht. rewrite (get_lookup _ _ _ H). split; [|reflexivity].
  by apply nonempty_length.
Qed.

(** X6. [SendAnimationFile] and [SendVideoNoteFile] always upload: when
    the last option to write "thumb" writes a non-empty file name [t], the
    attachments are the media file and then the thumb [t], and the map has
    no "thumb" key while its other keys are as the options left them; when
    no option touches "thumb", the media file is the only attachment. *)
Theorem file_senders_attach_thumb
    (remote : list Invocation -> Invocation -> Reply)
    (chatID filename : string) (opts : list SendOption) (w : World) :
  let built := apply_opts opts (Values.set "chat_id" chatID ∅) in
  (forall pre o post t,
      opts = pre ++ o :: post ->
      writes "thumb" t o ->
      Forall (keeps "thumb") post ->
      t <> "" ->
      issued (snd (SendAnimationFile remote chatID filename opts w))
        = issued w ++
          [InvokeWithFiles "sendAnimation" (Some (Values.del "thumb" built))
             {| files_ := [{| field := "animation"; name := filename |};
                           {| field := "thumb"; name := t |}] |}]
      /\ issued (snd (SendVideoNoteFile remote chatID filename opts w))
        = issued w ++
          [InvokeWithFiles "sendVideoNote" (Some (Values.del "thumb" built))
             {| files_ := [{| field := "video_note"; name := filename |};
                           {| field := "thumb"; name := t |}] |}]
      /\ Values.del "thumb" built !! "thumb" = None
      /\ (forall k, k <> "thumb" -> Values.del "thumb" built !! k = built !! k))
  /\ (Forall (keeps "thumb") opts ->
      issued (snd (SendAnimationFile remote chatID filename opts w))
        = issued w ++
          [InvokeWithFiles "sendAnimation" (Some built)
             {| files_ := [{| field := "animation"; name := filename |}] |}]
      /\ issued (snd (SendVideoNoteFile remote chatID filename opts w))
        = issued w ++
          [InvokeWithFiles "sendVideoNote" (Some built)
             {| files_ := [{| field := "video_note"; name := filename |}] |}]
      /\ built !! "thumb" = None).
Proof.
  cbv zeta. split.
  - intros pre o post t -> Hw Hk Ht.
    pose proof (apply_opts_last_write "thumb" t pre o post
                  (Values.set "chat_id" chatID ∅) Hw Hk) as Hreq.
    destruct (thumb_test_present _ _ Hreq Ht) as [Htest Hget].
    split_and!.
    + unfold SendAnimationFile. cbv zeta. rewrite Htest, Hget. by one_call.
    + unfold SendVideoNoteFile. cbv zeta. rewrite Htest, Hget. by one_call.
    + apply lookup_delete_eq.
    + intros k Hk'. unfold Values.del. by rewrite lookup_delete_ne.
  - intros Hk.
    assert (apply_opts opts (Values.set "chat_id" chatID ∅) !! "thumb" = None)
      as Hreq.
    { rewrite (apply_opts_keeps _ _ Hk). lookup_sets. }
    pose proof (thumb_test_absent _ Hreq) as Htest.
    split_and!.
    + unfold SendAnimationFile. cbv zeta. rewrite Htest. by one_call.
    + unfold SendVideoNoteFile. cbv zeta. rewrite Htest. by one_call.
    + exact Hreq.
Qed.

Lemma file_senders_attach_thumb_witness :
  issued (snd (SendAnimationFile always_ok "123" "cat.gif"
                 [OptCaption "hi"; OptThumb "thumb.jpg"] fresh_world))
  = issued fresh_world ++
    [InvokeWithFiles "sendAnimation"
       (Some (Values.del "thumb"
                (apply_opts [OptCaption "hi"; OptThumb "thumb.jpg"]
                   (Values.set "chat_id" "123" ∅))))
       {| files_ := [{| field := "animation"; name := "cat.gif" |};
                     {| field := "thumb"; name := "thumb.jpg" |}] |}].
Proof.
  apply (proj1 (file_senders_attach_thumb always_ok "123" "cat.gif"
                  [OptCaption "hi"; OptThumb "thumb.jpg"] fresh_world)
           [OptCaption "hi"] (OptThumb "thumb.jpg") [] "thumb.jpg").
  - reflexivity.
  - apply set_writes.
  - constructor.
  - discriminate.
Defined.

(** X7. An empty thumb is not uploaded and not removed: when the last
    option to write "thumb" writes the empty string, [SendAnimation] and
    [SendVideoNote] issue a plain call with no attachment, their File
    variants attach the media file alone, and in all four the map still
    has "thumb" set to the empty string. *)
Theorem empty_thumb_stays_a_parameter
    (remote : list Invocation -> Invocation -> Reply)
    (chatID media : string) (pre post : list SendOption) (o : SendOption)
    (w : World) :
  writes "thumb" "" o ->
  Forall (keeps "thumb") post ->
  let opts := pre ++ o :: post in
  (exists req : Values.t,
      issued (snd (SendAnimation remote chatID media opts w))
        = issued w ++ [Invoke "sendAnimation" (Some req)]
      /\ req !! "thumb" = Some [""])
  /\ (exists req : Values.t,
      issued (snd (SendVideoNote remote chatID media opts w))
        = issued w ++ [Invoke "sendVideoNote" (Some req)]
      /\ req !! "thumb" = Some [""])
  /\ (exists req : Values.t,
      issued (snd (SendAnimationFile remote chatID media opts w))
        = issued w ++
          [InvokeWithFiles "sendAnimation" (Some req)
             {| files_ := [{| field := "animation"; name := media |}] |}]
      /\ req !! "thumb" = Some [""])
  /\ (exists req : Values.t,
      issued (snd (SendVideoNoteFile remote chatID media opts w))
        = issued w ++
          [InvokeWithFiles "sendVideoNote" (Some req)
             {| files_ := [{| field := "video_note"; name := media |}] |}]
      /\ req !! "thumb" = Some [""]).
Proof.
  intros Hw Hk. cbv zeta.
  assert (forall r : Values.t,
             apply_opts (pre ++ o :: post) r !! "thumb" = Some [""]) as Hreq.
  { intros r. by apply apply_opts_last_write. }
  split_and!.
  - unfold SendAnimation. cbv zeta. rewrite (thumb_test_empty _ (Hreq _)).
    one_call. eexists. split; [reflexivity|apply Hreq].
  - unfold SendVideoNote. cbv zeta. rewrite (thumb_test_empty _ (Hreq _)).
    one_call. eexists. split; [reflexivity|apply Hreq].
  - unfold SendAnimationFile. cbv zeta. rewrite (thumb_test_empty _ (Hreq _)).
    one_call. eexists. split; [reflexivity|apply Hreq].
  - unfold SendVideoNoteFile. cbv zeta. rewrite (thumb_test_empty _ (Hreq _)).
    one_call. eexists. split; [reflexivity|apply Hreq].
Qed.

Lemma empty_thumb_stays_a_parameter_witness :
  exists req : Values.t,
    issued (snd (SendAnimationFile always_ok "123" "cat.gif"
                   ([OptCaption "hi"] ++ OptThumb "" :: [OptDisableNotification])
                   fresh_world))
      = issued fresh_world ++
        [InvokeWithFiles "sendAnimation" (Some req)
           {| files_ := [{| field := "animation"; name := "cat.gif" |}] |}]
    /\ req !! "thumb" = Some [""].
Proof.
  apply (fun Hw Hk =>
           proj1 (proj2 (proj2 (empty_thumb_stays_a_parameter always_ok "123"
                    "cat.gif" [OptCaption "hi"] [OptDisableNotification]
                    (OptThumb "") fresh_world Hw Hk)))).
  - apply set_writes.
  - constructor; [|constructor]. apply set_keeps. discriminate.
Defined.

(** X8. [SendVideo] and [SendVideoFile] never upload a thumb: whatever file
    name the last option on "thumb" writes, it stays a plain parameter of
    the request, [SendVideo] attaches nothing and [SendVideoFile] attaches
    the video alone. *)
Theorem video_senders_keep_thumb_a_parameter
    (remote : list Invocation -> Invocation -> Reply)
    (chatID media t : string) (pre post : list SendOption) (o : SendOption)
    (w : World) :
  writes "thumb" t o ->
  Forall (keeps "thumb") post ->
  let opts := pre ++ o :: post in
  (exists req : Values.t,
      issued (snd (SendVideo remote chatID media opts w))
        = issued w ++ [Invoke "sendVideo" (Some req)]
      /\ req !! "thumb" = Some [t])
  /\ (exists req : Values.t,
      issued (snd (SendVideoFile remote chatID media opts w))
        = issued w ++
          [InvokeWithFiles "sendVideo" (Some req)
             {| files_ := [{| field := "video"; name := media |}] |}]
      /\ req !! "thumb" = Some [t]).
Proof.
  intros Hw Hk. cbv zeta. split.
  - unfold SendVideo. one_call. eexists. split; [reflexivity|].
    by apply apply_opts_last_write.
  - unfold SendVideoFile. one_call. eexists. split; [reflexivity|].
    by apply apply_opts_last_write.
Qed.

Lemma video_senders_keep_thumb_a_parameter_witness :
  exists req : Values.t,
    issued (snd (SendVideoFile always_ok "123" "clip.mp4"
                   ([OptWidth 640] ++ OptThumb "thumb.jpg" :: [OptHeight 480])
                   fresh_world))
      = issued fresh_world ++
        [InvokeWithFiles "sendVideo" (Some req)
           {| files_ := [{| field := "video"; name := "clip.mp4" |}] |}]
    /\ req !! "thumb" = Some ["thumb.jpg"].
Proof.
  apply (fun Hw Hk =>
           proj2 (video_senders_keep_thumb_a_parameter always_ok "123" "clip.mp4"
                    "thumb.jpg" [OptWidth 640] [OptHeight 480]
                    (OptThumb "thumb.jpg") fresh_world Hw Hk)).
  - apply set_writes.
  - constructor; [|constructor]. apply set_keeps. discriminate.
Defined.

Ltac by_reference Hu :=
  one_call; eexists; split; [reflexivity|]; split; lookup_built Hu.

(** X9. Each kind of media travels under one name either way: for audio,
    photo, document, video, animation, voice, video note and sticker, the
    sender taking a file id and the sender taking a file name issue the
    same method; the first puts the id in the map under the media's key
    and attaches nothing, the second attaches the file under that key and
    puts nothing under it in the map; both carry the chat. This holds for
    options that leave these keys and "thumb" alone. *)
Theorem media_travels_under_one_name
    (remote : list Invocation -> Invocation -> Reply)
    (chatID media : string) (opts : list SendOption) (w : World) :
  untouched media_keys opts ->
  let by_id send method fld :=
    sent_by_reference method fld chatID media
      (issued w) (issued (snd (send chatID media opts w))) in
  let by_file send method fld :=
    sent_by_upload method fld chatID media
      (issued w) (issued (snd (send chatID media opts w))) in
  (by_id (SendAudio remote) "sendAudio" "audio"
   /\ by_file (SendAudioFile remote) "sendAudio" "audio")
  /\ (by_id (SendPhoto remote) "sendPhoto" "photo"
   /\ by_file (SendPhotoFile remote) "sendPhoto" "photo")
  /\ (by_id (SendDocument remote) "sendDocument" "document"
   /\ by_file (SendDocumentFile remote) "sendDocument" "document")
  /\ (by_id (SendVideo remote) "sendVideo" "video"
   /\ by_file (SendVideoFile remote) "sendVideo" "video")
  /\ (by_id (SendAnimation remote) "sendAnimation" "animation"
   /\ by_file (SendAnimationFile remote) "sendAnimation" "animation")
  /\ (by_id (SendVoice remote) "sendVoice" "voice"
   /\ by_file (SendVoiceFile remote) "sendVoice" "voice")
  /\ (by_id (SendVideoNote remote) "sendVideoNote" "video_note"
   /\ by_file (SendVideoNoteFile remote) "sendVideoNote" "video_note")
  /\ (by_id (SendSticker remote) "sendSticker" "sticker"
   /\ by_file (SendStickerFile remote) "sendSticker" "sticker").
Proof.
  intros Hu. cbv zeta.
  assert (forall r : Values.t, r !! "thumb" = None ->
            (0 <? String.length (Values.get "thumb" (apply_opts opts r)))%nat
            = false) as Hthumb.
  { intros r Hr. apply thumb_test_absent.
    by rewrite (untouched_lookup _ _ _ _ Hu) by (simpl; tauto). }
  unfold sent_by_reference, sent_by_upload.
  split_and!.
  - unfold SendAudio. by_reference Hu.
  - unfold SendAudioFile. by_reference Hu.
  - unfold SendPhoto. by_reference Hu.
  - unfold SendPhotoFile. by_reference Hu.
  - unfold SendDocument. by_reference Hu.
  - unfold SendDocumentFile. by_reference Hu.
  - unfold SendVideo. by_reference Hu.
  - unfold SendVideoFile. by_reference Hu.
  - unfold SendAnimation. cbv zeta. rewrite Hthumb by lookup_sets.
    by_reference Hu.
  - unfold SendAnimationFile. cbv zeta. rewrite Hthumb by lookup_sets.
    by_reference Hu.
  - unfold SendVoice. by_reference Hu.
  - unfold SendVoiceFile. by_reference Hu.
  - unfold SendVideoNote. cbv zeta. rewrite Hthumb by lookup_sets.
    by_reference Hu.
  - unfold SendVideoNoteFile. cbv zeta. rewrite Hthumb by lookup_sets.
    by_reference Hu.
  - unfold SendSticker. by_reference Hu.
  - unfold SendStickerFile. by_reference Hu.
Qed.

Lemma untouched_by_setters keys kvs :
  (forall kv, In kv kvs -> ~ In (fst kv) keys) ->
  untouched keys (map setter kvs).
Proof.
  intros H. unfold untouched. apply Forall_forall. intros o Ho.
  apply list_elem_of_In, in_map_iff in Ho as (kv & <- & Hin).
  intros k Hk. apply set_keeps. intros Heq. apply (H kv Hin). by rewrite Heq.
Qed.

Lemma media_travels_under_one_name_witness :
  sent_by_reference "sendVoice" "voice" "123" "AwADBAAD"
    (issued fresh_world)
    (issued (snd (SendVoice always_ok "123" "AwADBAAD"
                    [OptCaption "hi"; OptDuration 3] fresh_world)))
  /\ sent_by_upload "sendVoice" "voice" "123" "AwADBAAD"
    (issued fresh_world)
    (issued (snd (SendVoiceFile always_ok "123" "AwADBAAD"
                    [OptCaption "hi"; OptDuration 3] fresh_world))).
Proof.
  apply (fun Hu =>
           proj1 (proj2 (proj2 (proj2 (proj2 (proj2
             (media_travels_under_one_name always_ok "123" "AwADBAAD"
                [OptCaption "hi"; OptDuration 3] fresh_world Hu))))))).
  apply (untouched_by_setters media_keys [("caption", "hi"); ("duration", Itoa 3)]).
  intros kv Hin. vm_compute in Hin. vm_compute.
  intuition (subst; discriminate).
Defined.

Ltac by_address Hu :=
  one_call; eexists; split; [reflexivity|]; split_and!;
  first [ lookup_built Hu
        | erewrite get_lookup; [apply Atoi_Itoa | lookup_built Hu] ].

(** X10. The inline senders issue the same method as their chat
    counterparts and are told apart by the map alone: for stopping a live
    location, editing a text, a caption or a reply markup, and setting a
    game score, the chat sender carries "chat_id" and a "message_id" that
    reads back as the number given, and no "inline_message_id"; the inline
    sender carries "inline_message_id" and neither of the other two. This
    holds for options that leave these three keys alone. *)
Theorem inline_and_chat_senders_share_methods
    (remote : list Invocation -> Invocation -> Reply)
    (chatID inlineMessageID text : string) (messageID userID score : Z)
    (opts : list SendOption) (w : World) :
  untouched address_keys opts ->
  let chat (run : M Reply) method :=
    addresses_chat_message method chatID messageID
      (issued w) (issued (snd (run w))) in
  let inline (run : M Reply) method :=
    addresses_inline_message method inlineMessageID
      (issued w) (issued (snd (run w))) in
  (chat (StopMessageLiveLocation remote chatID messageID opts)
      "stopMessageLiveLocation"
   /\ inline (StopInlineMessageLiveLocation remote inlineMessageID opts)
      "stopMessageLiveLocation")
  /\ (chat (EditMessageText remote chatID messageID text opts) "editMessageText"
   /\ inline (EditInlineMessageText remote inlineMessageID text opts)
      "editMessageText")
  /\ (chat (EditMessageCaption remote chatID messageID text opts)
      "editMessageCaption"
   /\ inline (EditInlineMessageCaption remote inlineMessageID text opts)
      "editMessageCaption")
  /\ (chat (EditMessageReplyMarkup remote chatID messageID opts)
      "editMessageReplyMarkup"
   /\ inline (EditInlineMessageReplyMarkup remote inlineMessageID opts)
      "editMessageReplyMarkup")
  /\ (chat (SetGameScore remote chatID messageID userID score opts) "setGameScore"
   /\ inline (SetInlineGameScore remote inlineMessageID userID score opts)
      "setGameScore").
Proof.
  intros Hu. cbv zeta. unfold addresses_chat_message, addresses_inline_message.
  split_and!.
  - unfold StopMessageLiveLocation. by_address Hu.
  - unfold StopInlineMessageLiveLocation. by_address Hu.
  - unfold EditMessageText. by_address Hu.
  - unfold EditInlineMessageText. by_address Hu.
  - unfold EditMessageCaption. by_address Hu.
  - unfold EditInlineMessageCaption. by_address Hu.
  - unfold EditMessageReplyMarkup. by_address Hu.
  - unfold EditInlineMessageReplyMarkup. by_address Hu.
  - unfold SetGameScore. by_address Hu.
  - unfold SetInlineGameScore. by_address Hu.
Qed.

Lemma inline_and_chat_senders_share_methods_witness :
  addresses_chat_message "editMessageText" "123" (-7)
    (issued fresh_world)
    (issued (snd (EditMessageText always_ok "123" (-7) "new text"
                    [OptParseModeHTML] fresh_world)))
  /\ addresses_inline_message "editMessageText" "AAAAinline"
    (issued fresh_world)
    (issued (snd (EditInlineMessageText always_ok "AAAAinline" "new text"
                    [OptParseModeHTML] fresh_world))).
Proof.
  apply (fun Hu =>
           proj1 (proj2 (inline_and_chat_senders_share_methods always_ok
                    "123" "AAAAinline" "new text" (-7) 1 0
                    [OptParseModeHTML] fresh_world Hu))).
  apply (untouched_by_setters address_keys [("parse_mode", "HTML")]).
  intros kv Hin. vm_compute in Hin. vm_compute.
  intuition (subst; discriminate).
Defined.

(** ** Chat member rights *)

Lemma Itoa_inj a b : Itoa a = Itoa b -> a = b.
Proof.
  intros H. pose proof (Atoi_Itoa a) as Ha. rewrite H, Atoi_Itoa in Ha.
  by injection Ha.
Qed.

Lemma Sprint_bool_inj a b : Sprint_bool a = Sprint_bool b -> a = b.
Proof. by destruct a, b. Qed.

Lemma last_call_inj (calls : list Invocation) m1 m2 (a b : Values.t) :
  calls ++ [Invoke m1 (Some a)] = calls ++ [Invoke m2 (Some b)] -> a = b.
Proof. intros H. apply app_inv_head in H. by injection H. Qed.

(** What two equal maps built by chains of [Set]s say about one key. *)
Ltac same_entry Hm k :=
  let H := fresh "Hk" in
  pose proof (f_equal (fun m : Values.t => m !! k) Hm) as H;
  cbv beta in H; unfold Values.set in H;
  repeat (rewrite lookup_insert_ne in H by done);
  rewrite !lookup_insert_eq in H;
  injection H as H;
  first [apply Sprint_bool_inj in H | apply Itoa_inj in H | idtac].

(** X11. [PromoteChatMember] called with a nil [Promotions] panics before
    any request is made; called with rights, it issues one
    "promoteChatMember" call from which the chat, the user and each of the
    eight rights can be told: two calls that issue the same request were
    given the same arguments. *)
Theorem PromoteChatMember_request_determines_arguments
    (remote : list Invocation -> Invocation -> Reply)
    (c1 c2 : string) (u1 u2 : Z) (p1 p2 : Promotions) (w : World) :
  PromoteChatMember remote c1 u1 None w = (inr NilDereference, w)
  /\ (exists req : Values.t,
        issued (snd (PromoteChatMember remote c1 u1 (Some p1) w))
        = issued w ++ [Invoke "promoteChatMember" (Some req)])
  /\ (issued (snd (PromoteChatMember remote c1 u1 (Some p1) w))
      = issued (snd (PromoteChatMember remote c2 u2 (Some p2) w)) ->
      c1 = c2 /\ u1 = u2 /\ p1 = p2).
Proof.
  split_and!.
  - reflexivity.
  - unfold PromoteChatMember, bind, ret, doRequest. cbv zeta. by eexists.
  - unfold PromoteChatMember, bind, ret, doRequest. cbv zeta.
    change (issued (snd (let '(a, w') := call remote ?i w in (inl a, w'))))
      with (issued (snd (call remote i w))).
    rewrite !call_issued. intros Hm. apply last_call_inj in Hm.
    same_entry Hm "chat_id". same_entry Hm "user_id".
    same_entry Hm "can_change_info". same_entry Hm "can_post_messages".
    same_entry Hm "can_edit_messages". same_entry Hm "can_delete_messages".
    same_entry Hm "can_invite_users". same_entry Hm "can_restrict_members".
    same_entry Hm "can_pin_messages". same_entry Hm "can_promote_member".
    destruct p1, p2. simpl in *. by subst.
Qed.

Lemma PromoteChatMember_request_determines_arguments_witness :
  "chat" = "chat" /\ 42 = 42
  /\ {| CanChangeInfo := true; CanPostMessages := false; CanEditMessages := false;
        CanDeleteMessages := true; CanInviteUsers := false;
        CanRestrictMembers := false; CanPinMessages := true;
        CanPromoteMembers := false |}
     = {| CanChangeInfo := true; CanPostMessages := false; CanEditMessages := false;
          CanDeleteMessages := true; CanInviteUsers := false;
          CanRestrictMembers := false; CanPinMessages := true;
          CanPromoteMembers := false |}.
Proof.
  apply (proj2 (proj2 (PromoteChatMember_request_determines_arguments always_ok
                         "chat" "chat" 42 42 _ _ fresh_world))).
  reflexivity.
Defined.

Ltac same_entry_under Hu Hm k :=
  let H := fresh "Hk" in
  pose proof (f_equal (fun m : Values.t => m !! k) Hm) as H;
  cbv beta in H;
  rewrite !(untouched_lookup _ _ _ _ Hu) in H by (simpl; tauto);
  unfold Values.set in H;
  repeat (rewrite lookup_insert_ne in H by done);
  rewrite !lookup_insert_eq in H;
  injection H as H;
  first [apply Sprint_bool_inj in H | apply Itoa_inj in H | idtac].

(** X12. [RestrictChatMember] called with a nil [Restrictions] panics
    before any request is made; called with restrictions and with options
    that leave its six keys alone, it issues one "restrictChatMember" call
    from which the chat, the user and each of the four permissions can be
    told. *)
Theorem RestrictChatMember_request_determines_arguments
    (remote : list Invocation -> Invocation -> Reply)
    (c1 c2 : string) (u1 u2 : Z) (r1 r2 : Restrictions)
    (opts : list SendOption) (w : World) :
  untouched restriction_keys opts ->
  RestrictChatMember remote c1 u1 None opts w = (inr NilDereference, w)
  /\ (exists req : Values.t,
        issued (snd (RestrictChatMember remote c1 u1 (Some r1) opts w))
        = issued w ++ [Invoke "restrictChatMember" (Some req)])
  /\ (issued (snd (RestrictChatMember remote c1 u1 (Some r1) opts w))
      = issued (snd (RestrictChatMember remote c2 u2 (Some r2) opts w)) ->
      c1 = c2 /\ u1 = u2 /\ r1 = r2).
Proof.
  intros Hu. split_and!.
  - reflexivity.
  - unfold RestrictChatMember, bind, ret, doRequest. cbv zeta. by eexists.
  - unfold RestrictChatMember, bind, ret, doRequest. cbv zeta.
    change (issued (snd (let '(a, w') := call remote ?i w in (inl a, w'))))
      with (issued (snd (call remote i w))).
    rewrite !call_issued. intros Hm. apply last_call_inj in Hm.
    same_entry_under Hu Hm "chat_id". same_entry_under Hu Hm "user_id".
    same_entry_under Hu Hm "can_send_messages".
    same_entry_under Hu Hm "can_send_media_messages".
    same_entry_under Hu Hm "can_send_other_messages".
    same_entry_under Hu Hm "can_add_web_page_previews".
    destruct r1, r2. simpl in *. by subst.
Qed.

Lemma RestrictChatMember_request_determines_arguments_witness :
  RestrictChatMember always_ok "chat" 42 None [OptDisableNotification] fresh_world
  = (inr NilDereference, fresh_world).
Proof.
  apply (RestrictChatMember_request_determines_arguments always_ok
           "chat" "chat" 42 42
           {| CanSendMessages := true; CanSendMediaMessages := false;
              CanSendOtherMessages := false; CanAddWebPagePreviews := false |}
           {| CanSendMessages := true; CanSendMediaMessages := false;
              CanSendOtherMessages := false; CanAddWebPagePreviews := false |}
           [OptDisableNotification] fresh_world).
  apply (untouched_by_setters restriction_keys [("disable_notification", "true")]).
  intros kv Hin. vm_compute in Hin. vm_compute.
  intuition (subst; discriminate).
Defined.

(** ** [files.Write] *)

Section WriteFacts.

Variable os_Open : string -> string + error.
Variable CreateFormFile : string -> string -> option error.
Variable io_Copy : string -> string -> string * option error.
Variable file_Close : string -> option error.

Local Abbreviation Write := (files_Write os_Open CreateFormFile io_Copy file_Close).
Local Abbreviation part_of := (written_part os_Open io_Copy).

Lemma files_Write_app a b d :
  Write (a ++ b) d
  = match Write a d with
    | (None, d') => Write b d'
    | failed => failed
    end.
Proof.
  revert d. induction a as [|f a IH]; intros d; [reflexivity|].
  cbn [app files_Write].
  destruct (os_Open (name f)) as [data|e]; [|reflexivity].
  destruct (CreateFormFile (field f) (name f)); [reflexivity|].
  destruct (io_Copy (name f) data) as [copied [e|]]; [reflexivity|].
  destruct (file_Close (name f)); [reflexivity|]. apply IH.
Qed.

Lemma files_Write_success fs d :
  fst (Write fs d) = None ->
  snd (Write fs d)
  = {| parts := parts d ++ map part_of fs;
       oslog := oslog d ++ flat_map open_close fs |}.
Proof.
  revert d. induction fs as [|f fs IH]; intros d.
  - intros _. simpl. rewrite !app_nil_r. by destruct d.
  - cbn [files_Write flat_map map].
    unfold written_part at 1. unfold file_bytes.
    destruct (os_Open (name f)) as [data|e]; [|discriminate].
    destruct (CreateFormFile (field f) (name f)); [discriminate|].
    destruct (io_Copy (name f) data) as [copied [e|]] eqn:Hcopy; [discriminate|].
    destruct (file_Close (name f)); [discriminate|].
    intros Hok. rewrite (IH _ Hok). cbn [parts oslog disk_close disk_part disk_open fst].
    unfold open_close at 2. f_equal; rewrite <- !app_assoc; reflexivity.
Qed.

End WriteFacts.

(** X13. [Write] over the files of two successive [Add]s writes the first
    batch and then the second, and leaves the second untouched when the
    first fails: [Add] appends, and [Write] over a concatenation is
    [Write] over its first part followed, on success only, by [Write]
    over the rest. *)
Theorem files_Write_is_sequential
    (os_Open : string -> string + error)
    (CreateFormFile : string -> string -> option error)
    (io_Copy : string -> string -> string * option error)
    (file_Close : string -> option error)
    (m : files) (f g : list inputFile) (d : Disk) :
  files_ (files_Add g (files_Add f m)) = files_ m ++ f ++ g
  /\ files_Write os_Open CreateFormFile io_Copy file_Close
       (files_ (files_Add g (files_Add f m))) d
     = match files_Write os_Open CreateFormFile io_Copy file_Close
               (files_ (files_Add f m)) d with
       | (None, d') => files_Write os_Open CreateFormFile io_Copy file_Close g d'
       | failed => failed
       end.
Proof.
  split.
  - unfold files_Add. simpl. by rewrite app_assoc.
  - unfold files_Add at 1. cbn [files_]. apply files_Write_app.
Qed.

(** X14. When [Write] returns nil, every file made it: the writer holds
    one form file per input file, in order, under the file's field and
    name and with the bytes copied from it, and each file was opened and
    then closed before the next one was opened. *)
Theorem files_Write_success_is_complete
    (os_Open : string -> string + error)
    (CreateFormFile : string -> string -> option error)
    (io_Copy : string -> string -> string * option error)
    (file_Close : string -> option error)
    (fs : list inputFile) (d : Disk) :
  fst (files_Write os_Open CreateFormFile io_Copy file_Close fs d) = None ->
  let d' := snd (files_Write os_Open CreateFormFile io_Copy file_Close fs d) in
  parts d' = parts d ++ map (written_part os_Open io_Copy) fs
  /\ map formField (map (written_part os_Open io_Copy) fs) = map field fs
  /\ map fileName (map (written_part os_Open io_Copy) fs) = map name fs
  /\ oslog d' = oslog d ++ flat_map open_close fs.
Proof.
  intros Hok. cbv zeta. rewrite (files_Write_success _ _ _ _ fs d Hok).
  split_and!; try reflexivity.
  - rewrite map_map. reflexivity.
  - rewrite map_map. reflexivity.
Qed.

Lemma files_Write_success_is_complete_witness :
  parts (snd (files_Write open_all create_all copy_all close_all
                [{| field := "animation"; name := "cat.gif" |};
                 {| field := "thumb"; name := "thumb.jpg" |}] empty_disk))
  = [{| formField := "animation"; fileName := "cat.gif";
        content := "bytes of cat.gif" |};
     {| formField := "thumb"; fileName := "thumb.jpg";
        content := "bytes of thumb.jpg" |}]
  /\ oslog (snd (files_Write open_all create_all copy_all close_all
                   [{| field := "animation"; name := "cat.gif" |};
                    {| field := "thumb"; name := "thumb.jpg" |}] empty_disk))
     = [Opened "cat.gif"; Closed "cat.gif"; Opened "thumb.jpg"; Closed "thumb.jpg"].
Proof.
  destruct (files_Write_success_is_complete open_all create_all copy_all close_all
              [{| field := "animation"; name := "cat.gif" |};
               {| field := "thumb"; name := "thumb.jpg" |}] empty_disk)
    as (Hparts & _ & _ & Hlog).
  - reflexivity.
  - split; [exact Hparts|exact Hlog].
Defined.

(** X15. [Write] stops at the first file that cannot be opened: the
    error of [os.Open] is returned as it is, the files before it are
    written and closed, and neither the failing file nor any file after
    it leaves a form file or an [os] call behind. *)
Theorem files_Write_stops_at_open_failure
    (os_Open : string -> string + error)
    (CreateFormFile : string -> string -> option error)
    (io_Copy : string -> string -> string * option error)
    (file_Close : string -> option error)
    (pre post : list inputFile) (bad : inputFile) (e : error) (d : Disk) :
  fst (files_Write os_Open CreateFormFile io_Copy file_Close pre d) = None ->
  os_Open (name bad) = inr e ->
  files_Write os_Open CreateFormFile io_Copy file_Close (pre ++ bad :: post) d
  = (Some e,
     {| parts := parts d ++ map (written_part os_Open io_Copy) pre;
        oslog := oslog d ++ flat_map open_close pre |}).
Proof.
  intros Hpre Hopen. rewrite files_Write_app.
  pose proof (files_Write_success _ _ _ _ pre d Hpre) as Hd.
  destruct (files_Write os_Open CreateFormFile io_Copy file_Close pre d)
    as [[x|] d']; [discriminate|].
  simpl in Hd. subst d'. cbn [files_Write]. by rewrite Hopen.
Qed.

Lemma files_Write_stops_at_open_failure_witness :
  files_Write (open_but "thumb.jpg") create_all copy_all close_all
    ([{| field := "animation"; name := "cat.gif" |}]
     ++ {| field := "thumb"; name := "thumb.jpg" |}
        :: [{| field := "extra"; name := "more.bin" |}])
    empty_disk
  = (Some (Errorf "open: no such file" []),
     {| parts := [{| formField := "animation"; fileName := "cat.gif";
                     content := "bytes of cat.gif" |}];
        oslog := [Opened "cat.gif"; Closed "cat.gif"] |}).
Proof.
  apply (files_Write_stops_at_open_failure (open_but "thumb.jpg") create_all
           copy_all close_all
           [{| field := "animation"; name := "cat.gif" |}]
           [{| field := "extra"; name := "more.bin" |}]
           {| field := "thumb"; name := "thumb.jpg" |}
           (Errorf "open: no such file" []) empty_disk).
  - reflexivity.
  - reflexivity.
Defined.

(** X16. A file whose form file cannot be created, or whose bytes cannot
    all be copied, is left open: [Write] returns at once, with the error of
    [CreateFormFile] as it is or the error of [io.Copy] wrapped, and the
    last [os] call is the opening of that file, which is never closed. A
    failing [Close] is reported wrapped, after the bytes were copied. *)
Theorem files_Write_leaves_failed_file_open
    (os_Open : string -> string + error)
    (CreateFormFile : string -> string -> option error)
    (io_Copy : string -> string -> string * option error)
    (file_Close : string -> option error)
    (pre post : list inputFile) (bad : inputFile) (data : string) (d : Disk) :
  fst (files_Write os_Open CreateFormFile io_Copy file_Close pre d) = None ->
  os_Open (name bad) = inl data ->
  let run :=
    files_Write os_Open CreateFormFile io_Copy file_Close (pre ++ bad :: post) d in
  let before := parts d ++ map (written_part os_Open io_Copy) pre in
  let calls := oslog d ++ flat_map open_close pre in
  (forall e,
      CreateFormFile (field bad) (name bad) = Some e ->
      run = (Some e,
             {| parts := before; oslog := calls ++ [Opened (name bad)] |}))
  /\ (forall copied e,
      CreateFormFile (field bad) (name bad) = None ->
      io_Copy (name bad) data = (copied, Some e) ->
      run = (Some (Errorf "failed to write file, %v" [OpV e]),
             {| parts := before ++ [{| formField := field bad;
                                       fileName := name bad;
                                       content := copied |}];
                oslog := calls ++ [Opened (name bad)] |}))
  /\ (forall copied e,
      CreateFormFile (field bad) (name bad) = None ->
      io_Copy (name bad) data = (copied, None) ->
      file_Close (name bad) = Some e ->
      run = (Some (Errorf "failed to close file, %v" [OpV e]),
             {| parts := before ++ [{| formField := field bad;
                                       fileName := name bad;
                                       content := copied |}];
                oslog := calls ++ [Opened (name bad); Closed (name bad)] |})).
Proof.
  intros Hpre Hopen. cbv zeta. rewrite files_Write_app.
  pose proof (files_Write_success _ _ _ _ pre d Hpre) as Hd.
  destruct (files_Write os_Open CreateFormFile io_Copy file_Close pre d)
    as [[x|] d']; [discriminate|].
  simpl in Hd. subst d'. cbn [files_Write]. rewrite Hopen.
  split_and!.
  - intros e ->. reflexivity.
  - intros copied e Hc Hio. rewrite Hc, Hio. reflexivity.
  - intros copied e Hc Hio Hcl. rewrite Hc, Hio, Hcl.
    unfold disk_close, disk_part, disk_open.
    cbn [parts oslog].
    by rewrite <- (app_assoc _ [Opened (name bad)] [Closed (name bad)]).
Qed.

Lemma files_Write_leaves_failed_file_open_witness :
  files_Write open_all (create_but "thumb.jpg") copy_all close_all
    ([{| field := "animation"; name := "cat.gif" |}]
     ++ {| field := "thumb"; name := "thumb.jpg" |} :: [])
    empty_disk
  = (Some (Errorf "multipart: writer closed" []),
     {| parts := [{| formField := "animation"; fileName := "cat.gif";
                     content := "bytes of cat.gif" |}];
        oslog := [Opened "cat.gif"; Closed "cat.gif"; Opened "thumb.jpg"] |}).
Proof.
  apply (fun Hpre Hopen =>
           proj1 (files_Write_leaves_failed_file_open open_all
                    (create_but "thumb.jpg") copy_all close_all
                    [{| field := "animation"; name := "cat.gif" |}] []
                    {| field := "thumb"; name := "thumb.jpg" |}
                    "bytes of thumb.jpg" empty_disk Hpre Hopen)
             (Errorf "multipart: writer closed" [])).
  - reflexivity.
  - reflexivity.
  - reflexivity.
Defined.

(** ** [readers] *)

Section ReadersFacts.

Variable CreateFormFile : string -> string -> option error.
Variable io_Copy : string -> string -> string * option error.

Local Abbreviation WriteFrom := (readers_Write_from CreateFormFile io_Copy).

Lemma readers_Write_from_success visit : forall i d,
  fst (WriteFrom i visit d) = None ->
  exists ps,
    snd (WriteFrom i visit d)
    = {| parts := parts d ++ ps; oslog := oslog d |}
    /\ map formField ps = map fst visit
    /\ (forall (j : nat) p, ps !! j = Some p ->
          fileName p = "file_" +:+ Itoa (i + Z.of_nat j)).
Proof.
  induction visit as [|[fld rd] visit IH]; intros i d.
  - intros _. exists []. simpl. rewrite app_nil_r. split_and!; [by destruct d|done|].
    intros j p Hj. by rewrite lookup_nil in Hj.
  - cbn [readers_Write_from].
    destruct (CreateFormFile fld _); [discriminate|].
    destruct (io_Copy fld rd) as [copied [e|]]; [discriminate|].
    intros Hok. destruct (IH _ _ Hok) as (ps & Hsnd & Hfields & Hnames).
    exists ({| formField := fld; fileName := "file_" +:+ Itoa i;
               content := copied |} :: ps).
    split_and!.
    + rewrite Hsnd. cbn [disk_part parts oslog]. by rewrite <- app_assoc.
    + cbn [map fst formField]. by rewrite Hfields.
    + intros [|j] p Hj.
      * injection Hj as <-. cbn [fileName]. by rewrite Z.add_0_r.
      * cbn [lookup list_lookup] in Hj. rewrite (Hnames j p Hj).
        do 2 f_equal. lia.
Qed.

End ReadersFacts.

Lemma file_name_inj a b : "file_" +:+ Itoa a = "file_" +:+ Itoa b -> a = b.
Proof. intros H. apply Itoa_inj. by injection H. Qed.

(** X17. A reader added under a field that already has one replaces it;
    and when [readers.Write] returns nil, whatever order the map is
    visited in, the writer holds one form file per field of the map, each
    field once, and the [j]-th form file written is named [file_j], so
    that no two form files share a name. *)
Theorem readers_Write_names_each_field_once
    (CreateFormFile : string -> string -> option error)
    (io_Copy : string -> string -> string * option error)
    (m : gmap string string) (visit : list (string * string)) (d : Disk) :
  Permutation visit (map_to_list m) ->
  fst (readers_Write CreateFormFile io_Copy visit d) = None ->
  (forall fld r1 r2,
      readers_Add fld r2 (readers_Add fld r1 m) = readers_Add fld r2 m)
  /\ exists ps,
      snd (readers_Write CreateFormFile io_Copy visit d)
      = {| parts := parts d ++ ps; oslog := oslog d |}
      /\ List.length ps = size m
      /\ map formField ps = map fst visit
      /\ NoDup (map formField ps)
      /\ (forall (j : nat) p, ps !! j = Some p ->
            fileName p = "file_" +:+ Itoa (Z.of_nat j))
      /\ NoDup (map fileName ps).
Proof.
  intros Hperm Hok. split.
  { intros fld r1 r2. unfold readers_Add. apply insert_insert_eq. }
  destruct (readers_Write_from_success CreateFormFile io_Copy visit 0 d Hok)
    as (ps & Hsnd & Hfields & Hnames).
  exists ps. split_and!.
  - exact Hsnd.
  - rewrite <- (length_map formField), Hfields, length_map, Hperm.
    apply length_map_to_list.
  - exact Hfields.
  - rewrite Hfields, Hperm. apply NoDup_fst_map_to_list.
  - intros j p Hj. by rewrite (Hnames j p Hj).
  - apply NoDup_alt. intros i j x Hi Hj.
    rewrite list_lookup_fmap in Hi, Hj.
    destruct (ps !! i) as [p|] eqn:Hpi; [|discriminate].
    destruct (ps !! j) as [q|] eqn:Hqj; [|discriminate].
    simpl in Hi, Hj. injection Hi as Hi. injection Hj as Hj.
    rewrite (Hnames i p Hpi) in Hi. rewrite (Hnames j q Hqj) in Hj.
    rewrite <- Hj in Hi. apply file_name_inj in Hi. lia.
Qed.

Lemma readers_Write_names_each_field_once_witness :
  exists ps,
    snd (readers_Write create_all copy_all
           (map_to_list (readers_Add "png_sticker" "PNG2"
                           (readers_Add "png_sticker" "PNG1" newMultipartReaders)))
           empty_disk)
    = {| parts := parts empty_disk ++ ps; oslog := oslog empty_disk |}
    /\ List.length ps
       = size (readers_Add "png_sticker" "PNG2"
                 (readers_Add "png_sticker" "PNG1" newMultipartReaders))
    /\ map formField ps
       = map fst (map_to_list (readers_Add "png_sticker" "PNG2"
                                 (readers_Add "png_sticker" "PNG1"
                                    newMultipartReaders)))
    /\ NoDup (map formField ps)
    /\ (forall (j : nat) p, ps !! j = Some p ->
          fileName p = "file_" +:+ Itoa (Z.of_nat j))
    /\ NoDup (map fileName ps).
Proof.
  apply (fun Hp Hok =>
           proj2 (readers_Write_names_each_field_once create_all copy_all
                    (readers_Add "png_sticker" "PNG2"
                       (readers_Add "png_sticker" "PNG1" newMultipartReaders))
                    (map_to_list (readers_Add "png_sticker" "PNG2"
                                    (readers_Add "png_sticker" "PNG1"
                                       newMultipartReaders)))
                    empty_disk Hp Hok)).
  - reflexivity.
  - vm_compute. reflexivity.
Defined.

(** ** The thumb, whatever the options do *)

Lemma get_after_del k (r : Values.t) : Values.get k (Values.del k r) = "".
Proof. apply get_absent. apply lookup_delete_eq. Qed.

Lemma thumb_test_false (req : Values.t) :
  (0 <? String.length (Values.get "thumb" req))%nat = false ->
  Values.get "thumb" req = "".
Proof.
  intros H. destruct (Values.get "thumb" req) eqn:Hg; [reflexivity|discriminate].
Qed.

Lemma thumb_test_true (req : Values.t) :
  (0 <? String.length (Values.get "thumb" req))%nat = true ->
  Values.get "thumb" req <> "".
Proof. intros H Heq. rewrite Heq in H. discriminate. Qed.

Lemma setters_thumb_entry kvs (base : Values.t) :
  base !! "thumb" = None ->
  Values.get "thumb" (apply_opts (map setter kvs) base) = "" ->
  apply_opts (map setter kvs) base !! "thumb" = None
  \/ apply_opts (map setter kvs) base !! "thumb" = Some [""].
Proof.
  intros Hbase Hget. pose proof (apply_setters_lookup kvs base "thumb") as Hl.
  destruct (written "thumb" kvs) as [v|].
  - right. rewrite (get_lookup _ _ _ Hl) in Hget. by subst v.
  - left. by rewrite Hl.
Qed.

(** X18. Whatever the options do to the map, [SendAnimation],
    [SendVideoNote] and their File variants issue exactly one call, and
    [Get("thumb")] on the map of that call is the empty string; a file
    attached under the field "thumb" has a non-empty name, and the map
    then has no "thumb" key at all. When every option is a single [Set],
    as the options of the package are, the "thumb" entry of the map is
    either absent or the empty string alone, so that no non-empty thumb
    goes out as a parameter. *)
Theorem thumb_never_sent_as_parameter
    (remote : list Invocation -> Invocation -> Reply)
    (chatID media : string) (w : World) :
  let clean (run : M Reply) :=
    exists i req,
      issued (snd (run w)) = issued w ++ [i]
      /\ call_params i = Some req
      /\ Values.get "thumb" req = ""
      /\ (forall f, In f (call_files i) -> field f = "thumb" ->
            name f <> "" /\ req !! "thumb" = None) in
  let bare (run : M Reply) :=
    exists i req,
      issued (snd (run w)) = issued w ++ [i]
      /\ call_params i = Some req
      /\ (req !! "thumb" = None \/ req !! "thumb" = Some [""]) in
  (forall opts : list SendOption,
      clean (SendAnimation remote chatID media opts)
      /\ clean (SendVideoNote remote chatID media opts)
      /\ clean (SendAnimationFile remote chatID media opts)
      /\ clean (SendVideoNoteFile remote chatID media opts))
  /\ (forall kvs : list (string * string),
      bare (SendAnimation remote chatID media (map setter kvs))
      /\ bare (SendVideoNote remote chatID media (map setter kvs))
      /\ bare (SendAnimationFile remote chatID media (map setter kvs))
      /\ bare (SendVideoNoteFile remote chatID media (map setter kvs))).
Proof.
  cbv zeta. split.
  - intros opts. split_and!.
    + unfold SendAnimation. cbv zeta.
      destruct (0 <? _)%nat eqn:Ht; one_call; eexists _, _;
        (split_and!; [reflexivity|reflexivity| |]).
      * apply get_after_del.
      * intros f [<-|[]] _. split; [by apply thumb_test_true|].
        apply lookup_delete_eq.
      * by apply thumb_test_false.
      * intros f [].
    + unfold SendVideoNote. cbv zeta.
      destruct (0 <? _)%nat eqn:Ht; one_call; eexists _, _;
        (split_and!; [reflexivity|reflexivity| |]).
      * apply get_after_del.
      * intros f [<-|[]] _. split; [by apply thumb_test_true|].
        apply lookup_delete_eq.
      * by apply thumb_test_false.
      * intros f [].
    + unfold SendAnimationFile. cbv zeta.
      destruct (0 <? _)%nat eqn:Ht; one_call; eexists _, _;
        (split_and!; [reflexivity|reflexivity| |]).
      * apply get_after_del.
      * intros f [<-|[<-|[]]] Hf; [discriminate Hf|].
        split; [by apply thumb_test_true|]. apply lookup_delete_eq.
      * by apply thumb_test_false.
      * intros f [<-|[]] Hf. discriminate Hf.
    + unfold SendVideoNoteFile. cbv zeta.
      destruct (0 <? _)%nat eqn:Ht; one_call; eexists _, _;
        (split_and!; [reflexivity|reflexivity| |]).
      * apply get_after_del.
      * intros f [<-|[<-|[]]] Hf; [discriminate Hf|].
        split; [by apply thumb_test_true|]. apply lookup_delete_eq.
      * by apply thumb_test_false.
      * intros f [<-|[]] Hf. discriminate Hf.
  - intros kvs. split_and!.
    + unfold SendAnimation. cbv zeta.
      destruct (0 <? _)%nat eqn:Ht; one_call; eexists _, _;
        (split_and!; [reflexivity|reflexivity|]).
      * left. apply lookup_delete_eq.
      * apply setters_thumb_entry; [lookup_sets|by apply thumb_test_false].
    + unfold SendVideoNote. cbv zeta.
      destruct (0 <? _)%nat eqn:Ht; one_call; eexists _, _;
        (split_and!; [reflexivity|reflexivity|]).
      * left. apply lookup_delete_eq.
      * apply setters_thumb_entry; [lookup_sets|by apply thumb_test_false].
    + unfold SendAnimationFile. cbv zeta.
      destruct (0 <? _)%nat eqn:Ht; one_call; eexists _, _;
        (split_and!; [reflexivity|reflexivity|]).
      * left. apply lookup_delete_eq.
      * apply setters_thumb_entry; [lookup_sets|by apply thumb_test_false].
    + unfold SendVideoNoteFile. cbv zeta.
      destruct (0 <? _)%nat eqn:Ht; one_call; eexists _, _;
        (split_and!; [reflexivity|reflexivity|]).
      * left. apply lookup_delete_eq.
      * apply setters_thumb_entry; [lookup_sets|by apply thumb_test_false].
Qed.

Lemma thumb_never_sent_as_parameter_witness :
  exists i req,
    issued (snd (SendAnimationFile always_ok "123" "cat.gif"
                   [OptCaption "hi"; OptThumb "t.jpg"] fresh_world))
      = issued fresh_world ++ [i]
    /\ call_params i = Some req
    /\ Values.get "thumb" req = ""
    /\ (forall f, In f (call_files i) -> field f = "thumb" ->
          name f <> "" /\ req !! "thumb" = None).
Proof.
  apply (proj1 (proj2 (proj2
           (proj1 (thumb_never_sent_as_parameter always_ok "123" "cat.gif"
                     fresh_world)
              [OptCaption "hi"; OptThumb "t.jpg"])))).
Defined.
